(** * dao-m8: conversation lifecycle, prompt budget and completion retry

    A shallow embedding of the core of [dao-m8/src]: the persisted
    conversation / message / summary operations of [database.py], the prompt
    construction of [agent/prompt_manager.py] and [agent/__init__.py], the
    bounded-retry completion call with its slot map, the response generator,
    and the three command handlers of [bot.py] that carry lifecycle guards. *)

From stdpp Require Import gmap strings list sorting pretty.
From Stdlib Require Import ZArith Ascii.
From Stdlib Require QArith.

Local Open Scope string_scope.
Local Open Scope list_scope.
Local Open Scope nat_scope.
Local Set Warnings "-register-all".

(** ** Python values shared by all modules *)

(** The exceptions the modelled code can raise.  Every one of them is a plain
    [Exception(msg)] in the source except where Python itself raises
    ([AttributeError] on [None.attr], [KeyError] on a missing dict key) or
    the HTTP client does ([ClientError] for a transport failure,
    [JSONDecodeError] when [response.json()] cannot parse the body).
    [CompleteFailed errors] is the
    [Exception(f"Agent::complete(): Failed to complete prompt: {errors}")]
    of [Agent.complete]: its message is rendered from the list it carries. *)
Inductive Exception : Type :=
| PyException (msg : string)
| AttributeError (msg : string)
| KeyError (key : string)
| ClientError (msg : string)
| JSONDecodeError
| CompleteFailed (errors : list Exception).

(** A call either returns a value or raises. *)
Inductive Result (A : Type) : Type :=
| Return (a : A)
| Raise (e : Exception).
Arguments Return {A} a.
Arguments Raise {A} e.

Definition is_return {A} (r : Result A) : bool :=
  match r with Return _ => true | Raise _ => false end.

(** Timestamps ([datetime]) are seconds since the epoch. *)
Definition datetime := Z.

(** Sampling parameters are configured as decimal numbers and only
    forwarded to the backend. *)
Definition pyfloat := QArith_base.Q.

(** ** database.py *)

(** An [Enum(...)] column stores the name of the member assigned to it, and
    stores a plain string assigned to it as it is; the state columns below
    hold that stored string. *)

Module ConversationState.
Inductive t := active | inactive | complete | cancelled.

Definition name (s : t) : string :=
  match s with
  | active => "active"
  | inactive => "inactive"
  | complete => "complete"
  | cancelled => "cancelled"
  end.

Global Instance conversation_state_eq_dec : EqDecision t.
Proof. solve_decision. Defined.
End ConversationState.

Module SummaryState.
Inductive t := pending | complete | failed.

Definition name (s : t) : string :=
  match s with
  | pending => "pending"
  | complete => "complete"
  | failed => "failed"
  end.

(** [str(state)] of a member of a plain [Enum] class. *)
Definition str (s : t) : string := "SummaryState." +:+ name s.

Global Instance summary_state_eq_dec : EqDecision t.
Proof. solve_decision. Defined.
End SummaryState.

Module User.
Record t := mk {
  id : Z;
  username : option string;
  first_name : option string;
  last_name : option string;
  language_code : option string
}.
End User.

Module Chat.
Record t := mk {
  id : Z;
  dao_address : string;
  chain_id : Z;
  created_at : datetime;
  updated_at : datetime
}.

Definition read (chat_id : Z) (chats : list t) : option (nat * t) :=
  list_find (λ c, id c = chat_id) chats.
End Chat.

Module Conversation.
Record t := mk {
  id : Z;
  chat_id : Z;
  agenda : option string;
  state : string;
  ipfs_hash : option string;
  created_at : datetime;
  updated_at : datetime
}.

Definition set_state (s : string) (now : datetime) (c : t) : t :=
  mk (id c) (chat_id c) (agenda c) s (ipfs_hash c) (created_at c) now.

Definition with_ipfs_hash (h : string) (now : datetime) (c : t) : t :=
  mk (id c) (chat_id c) (agenda c) (state c) (Some h) (created_at c) now.

(** The key SQLite gives a row inserted without one into a table with an
    [INTEGER PRIMARY KEY]: 1 in an empty table, else one more than the
    largest key in use (which is below the largest 64-bit integer in every
    table the code can build). *)
Definition next_id (tbl : list t) : Z :=
  match tbl with
  | [] => 1%Z
  | c :: rest => foldr (λ c acc, Z.max (id c) acc) (id c) rest + 1
  end.

(** A loaded row is the pair of its position in the table (the identity
    of the ORM object) and its value; [.scalars().first()] is the first
    row that matches the filter. *)
Definition active (chat : Z) (tbl : list t) : option (nat * t) :=
  list_find (λ c, chat_id c = chat ∧ state c = "active") tbl.

Definition create (chat : Z) (agenda_text : string) (now : datetime)
    (tbl : list t) : option t * list t :=
  match active chat tbl with
  | Some _ => (None, tbl)
  | None =>
      let new_conversation :=
        mk (next_id tbl) chat (Some agenda_text) "active" None now now in
      (Some new_conversation, tbl ++ [new_conversation])
  end.

Definition read (chat : Z) (conversation_id : Z) (tbl : list t)
    : option (nat * t) :=
  list_find (λ c, id c = conversation_id ∧ chat_id c = chat) tbl.

Definition read_pushed (chat : Z) (tbl : list t) : list t :=
  filter (λ c, chat_id c = chat ∧ state c = "complete" ∧ ipfs_hash c ≠ None) tbl.

Definition enter (chat : Z) (conversation_id : Z) (now : datetime)
    (tbl : list t) : option t * list t :=
  match read chat conversation_id tbl with
  | None => (None, tbl)
  | Some (i, conversation) =>
      let conversation := set_state "active" now conversation in
      (Some conversation, <[i := conversation]> tbl)
  end.

Definition update_state (chat : Z) (new_state : ConversationState.t)
    (now : datetime) (tbl : list t) : Result (option t) * list t :=
  if decide (new_state = ConversationState.active) then
    (Raise (PyException "Cannot set state to active. Call enter instead"), tbl)
  else
    match active chat tbl with
    | None => (Return None, tbl)
    | Some (i, conversation) =>
        let conversation :=
          set_state (ConversationState.name new_state) now conversation in
        (Return (Some conversation), <[i := conversation]> tbl)
    end.

(** [conversation.ipfs_hash = ipfs_hash] on the [None] that [.first()]
    gives when no row matches raises [AttributeError]. *)
Definition set_ipfs_hash (conversation_id : Z) (hash : string)
    (now : datetime) (tbl : list t) : Result t * list t :=
  match list_find (λ c, id c = conversation_id ∧ state c = "complete") tbl with
  | None =>
      (Raise (AttributeError "'NoneType' object has no attribute 'ipfs_hash'"), tbl)
  | Some (i, conversation) =>
      let conversation := with_ipfs_hash hash now conversation in
      (Return conversation, <[i := conversation]> tbl)
  end.
End Conversation.

Module Message.
(** A message row with the relationships [read_all] loads eagerly:
    [from_user] (the foreign key is not nullable) and, one level deep,
    the author of [reply_to_message] when there is one. *)
Record t := mk {
  id : Z;
  conversation_id : Z;
  from_user : User.t;
  reply_to_message : option User.t;
  text : string;
  timestamp : datetime
}.

(** [ORDER BY timestamp DESC]: [newer_first m1 m2] when [m1] may come
    before [m2].  SQL leaves the order of rows with equal timestamps open;
    [read_all] below takes the one [merge_sort] gives, and what is proved of
    it uses [newer_first] only. *)
Definition newer_first (m1 m2 : t) : Prop := (timestamp m2 ≤ timestamp m1)%Z.

Global Instance newer_first_dec : RelDecision newer_first.
Proof. intros m1 m2. unfold newer_first. apply _. Defined.

Definition record (new_message : t) (tbl : list t) : list t :=
  tbl ++ [new_message].

(** [limit] is [None] or an integer; [if limit:] is false for both
    [None] and [0].  A negative [LIMIT] is no bound in SQLite. *)
Definition read_all (conversation : Z) (limit : option Z) (tbl : list t)
    : list t :=
  let base_query := filter (λ m, conversation_id m = conversation) tbl in
  let ordered := merge_sort newer_first base_query in
  match limit with
  | None => ordered
  | Some n =>
      if decide (n = 0%Z) then ordered
      else if decide (n < 0)%Z then ordered
      else take (Z.to_nat n) ordered
  end.
End Message.

Module Summary.
Record t := mk {
  id : Z;
  conversation_id : Z;
  message_count : Z;
  state : string;
  text : option string;
  created_at : datetime;
  updated_at : datetime
}.

Definition next_id (tbl : list t) : Z :=
  match tbl with
  | [] => 1%Z
  | s :: rest => foldr (λ s acc, Z.max (id s) acc) (id s) rest + 1
  end.

(** [select(func.count()).select_from(Message)] has no filter: it counts
    the rows of the whole messages table. *)
Definition create (conversation : Z) (now : datetime)
    (messages : list Message.t) (tbl : list t) : t * list t :=
  let message_count := Z.of_nat (length messages) in
  let summary :=
    mk (next_id tbl) conversation message_count
       (SummaryState.name SummaryState.pending) None now now in
  (summary, tbl ++ [summary]).

Definition mark (summary_id : Z) (new_text : string) (new_state : SummaryState.t)
    (now : datetime) (tbl : list t) : Result unit * list t :=
  match list_find (λ s, id s = summary_id) tbl with
  | None => (Raise (PyException "summary does not exist"), tbl)
  | Some (i, summary) =>
      let summary :=
        mk (id summary) (conversation_id summary) (message_count summary)
           (SummaryState.str new_state) (Some new_text)
           (created_at summary) now in
      (Return tt, <[i := summary]> tbl)
  end.
End Summary.

(** ** agent/utils.py *)

(** What the code takes from outside the repository: the tokenizer
    ([nltk.word_tokenize]), Python's [str.format] applied to a persona
    template with the keyword arguments [char] and [date] (it raises on a
    template that names another field or is malformed), and the content
    store's [add_str] applied to the JSON rendering of a transcript. *)
Class Extern := {
  word_tokenize : string → list string;
  str_format : string → string → string → Result string;
  ipfs_add_str : option string → list Message.t → Result string
}.

Definition calculate_number_of_tokens `{Extern} (line : string) : nat :=
  length (word_tokenize line).

(** [a or b] on an optional string: [None] and the empty string are false. *)
Definition str_or (a : option string) (b : string) : string :=
  match a with
  | Some s => if decide (s = "") then b else s
  | None => b
  end.

Definition fmt_msg_user_name (user : User.t) : string :=
  str_or (User.username user)
    (str_or (User.first_name user) "" +:+ " " +:+ str_or (User.last_name user) "").

(** ** agent/prompt_manager.py *)

(** [s.replace("\n", " ")] *)
Fixpoint replace_newlines (s : string) : string :=
  match s with
  | EmptyString => EmptyString
  | String c rest =>
      String (if decide (c = "010"%char) then " "%char else c) (replace_newlines rest)
  end.

Module PromptManager.
Record SystemPromptSchema := mk_schema {
  Role : string;
  Objective : string
}.

Record t := mk {
  user_prepend : string;
  user_append : string;
  log_start : string;
  stop_sequences : list string;
  stop_sequence : string;
  line_separator : string;
  name : string;
  summary_system_prompt_schema : SystemPromptSchema;
  proposal_system_prompt_schema : SystemPromptSchema
}.

Definition set_name (new_name : string) (pm : t) : t :=
  mk (user_prepend pm) (user_append pm) (log_start pm) (stop_sequences pm)
     (stop_sequence pm) (line_separator pm) new_name
     (summary_system_prompt_schema pm) (proposal_system_prompt_schema pm).

Definition chat_message (pm : t) (message : Message.t) : string :=
  let from_user_name := fmt_msg_user_name (Message.from_user message) in
  let sender :=
    match Message.reply_to_message message with
    | Some to_user =>
        from_user_name +:+ " (in reply to " +:+ fmt_msg_user_name to_user +:+ ")"
    | None => from_user_name
    end in
  user_prepend pm +:+ sender +:+ user_append pm +:+ Message.text message
    +:+ stop_sequence pm +:+ line_separator pm.

(** The [message] argument of [prompt_response]: [None], a message, or a
    string. *)
Inductive PromptBase :=
| NoMessage
| OfMessage (message : Message.t)
| OfString (s : string).

Definition prompt_response `{Extern} (pm : t) (message : PromptBase)
    (text : string) (token_limit : Z) : Result (string * nat) :=
  let base :=
    match message with
    | NoMessage => ""
    | OfMessage m => chat_message pm m
    | OfString s => s
    end in
  let prompt := base +:+ user_prepend pm +:+ name pm +:+ user_append pm +:+ text in
  let used_tokens := calculate_number_of_tokens prompt in
  if decide (token_limit = -1)%Z then Return (prompt, used_tokens)
  else if decide (token_limit < Z.of_nat used_tokens)%Z then
    Raise (PyException "prompt_response(): prompt exceeds token limit")
  else Return (prompt, used_tokens).

(** The loop over the fields of the schema, [Role] then [Objective]. *)
Fixpoint format_values `{Extern} (values : list string) (char date : string)
    (system_prompt : string) : Result string :=
  match values with
  | [] => Return system_prompt
  | value :: rest =>
      match str_format value char date with
      | Raise e => Raise e
      | Return formatted_value =>
          format_values rest char date
            (system_prompt +:+ replace_newlines formatted_value)
      end
  end.

(** The text of a system prompt, before its tokens are counted. *)
Definition render_system_prompt `{Extern} (pm : t) (schema : SystemPromptSchema)
    (date : string) : Result string :=
  match format_values [Role schema; Objective schema] (name pm) date "" with
  | Raise e => Raise e
  | Return body =>
      Return (user_prepend pm +:+ "system" +:+ user_append pm +:+ body
                +:+ stop_sequence pm +:+ line_separator pm +:+ log_start pm)
  end.

(** The common body of [summary_system_prompt] and
    [proposal_system_prompt], which differ in the schema they render. *)
Definition build_system_prompt `{Extern} (pm : t) (schema : SystemPromptSchema)
    (date : string) (token_limit : Z) : Result (string * nat) :=
  match render_system_prompt pm schema date with
  | Raise e => Raise e
  | Return system_prompt =>
      let used_tokens := calculate_number_of_tokens system_prompt in
      if decide (token_limit < Z.of_nat used_tokens)%Z then
        Raise (PyException "build_system_prompt(): system prompt exceeds token limit")
      else Return (system_prompt, used_tokens)
  end.

(** [date] is [datetime.now()] rendered by [strftime]. *)
Definition summary_system_prompt `{Extern} (pm : t) (date : string)
    (token_limit : Z) : Result (string * nat) :=
  build_system_prompt pm (summary_system_prompt_schema pm) date token_limit.

Definition proposal_system_prompt `{Extern} (pm : t) (date : string)
    (token_limit : Z) : Result (string * nat) :=
  build_system_prompt pm (proposal_system_prompt_schema pm) date token_limit.
End PromptManager.

(** ** agent/__init__.py *)

Module Http.
(** The handle of an [aiohttp.ClientSession]. *)
Definition Session := nat.

(** The JSON body of a completion request (engine [llamacpp]). *)
Record Params := mk_params {
  prompt : string;
  temperature : pyfloat;
  top_p : pyfloat;
  top_k : Z;
  n_predict : Z;
  id_slot : Z;
  slot_id : Z;
  typical_p : Z;
  tfs_z : Z;
  stop : list string;
  cache_prompt : bool;
  use_default_badwordsids : bool
}.

(** The JSON object of a response, with the keys the code reads; a key
    that is absent is [None]. *)
Record ResponseData := mk_response {
  r_id_slot : option Z;
  r_slot_id : option Z;
  stopped_eos : option bool;
  stopped_word : option bool;
  content : option string
}.

(** What [session.post] gives: it raises, or answers with a status and a
    body; the body is [None] when [response.json()] cannot parse it. *)
Inductive Outcome :=
| TransportError (e : Exception)
| Response (status : Z) (body : option ResponseData).

(** A backend with state of type [B]: one request, one outcome. *)
Class Backend (B : Type) :=
  post : Session → string → Params → B → Outcome * B.

(** The world outside the agent: the backend and the number of client
    sessions opened so far (the next fresh handle). *)
Record World (B : Type) := mk_world {
  backend : B;
  sessions_opened : nat
}.
Arguments mk_world {B} _ _.
Arguments backend {B} _.
Arguments sessions_opened {B} _.
End Http.

Module PromptType.
Inductive t := summary | proposal.
End PromptType.

Module Agent.
Import Http.

Record t := mk {
  model_name : string;
  model_api_url : string;
  model_engine : string;
  max_completion_tokens : Z;
  max_prompt_tokens : Z;
  temperature : pyfloat;
  sampler_order : list Z;
  top_p : pyfloat;
  top_k : Z;
  stop_sequences : list string;
  max_completion_tries : Z;
  model_conversation_slots : gmap Z (Session * Z);
  prompt_manager : PromptManager.t
}.

Definition with_slots (slots : gmap Z (Session * Z)) (a : t) : t :=
  mk (model_name a) (model_api_url a) (model_engine a) (max_completion_tokens a)
     (max_prompt_tokens a) (temperature a) (sampler_order a) (top_p a) (top_k a)
     (stop_sequences a) (max_completion_tries a) slots (prompt_manager a).

Definition clear_chat (conversation_id : Z) (a : t) : t :=
  with_slots (delete conversation_id (model_conversation_slots a)) a.

Definition clear_all_chats (a : t) : t := with_slots ∅ a.

(** The [for message in messages] loop of [build_prompt]: it stops at the
    first line that does not fit. *)
Fixpoint fill_chat_log `{Extern} (pm : PromptManager.t) (token_limit : Z)
    (messages : list Message.t) (used_tokens : nat) (chat_log_lines : list string)
    : nat * list string :=
  match messages with
  | [] => (used_tokens, chat_log_lines)
  | message :: rest =>
      let line := PromptManager.chat_message pm message in
      let additional_tokens := calculate_number_of_tokens line in
      if decide (token_limit < Z.of_nat (used_tokens + additional_tokens))%Z
      then (used_tokens, chat_log_lines)
      else fill_chat_log pm token_limit rest (used_tokens + additional_tokens)
             (chat_log_lines ++ [line])
  end.

(** [for line in reversed(chat_log_lines): chat_log = f"{chat_log}{line}"] *)
Definition join_reversed (chat_log_lines : list string) : string :=
  foldl (λ chat_log line, chat_log +:+ line) "" (reverse chat_log_lines).

Definition build_prompt `{Extern} (a : t) (messages : list Message.t)
    (prompt_type : PromptType.t) (date : string) : Result (string * nat) :=
  let token_limit := max_prompt_tokens a in
  let system :=
    match prompt_type with
    | PromptType.summary =>
        PromptManager.summary_system_prompt (prompt_manager a) date token_limit
    | PromptType.proposal =>
        PromptManager.proposal_system_prompt (prompt_manager a) date token_limit
    end in
  match system with
  | Raise e => Raise e
  | Return (system_prompt, system_prompt_tokens) =>
      match PromptManager.prompt_response (prompt_manager a)
              PromptManager.NoMessage ""
              (token_limit - Z.of_nat system_prompt_tokens) with
      | Raise e => Raise e
      | Return (prompt_response, prompt_response_tokens) =>
          let basic_prompt_tokens := system_prompt_tokens + prompt_response_tokens in
          let '(used_tokens, chat_log_lines) :=
            fill_chat_log (prompt_manager a) token_limit messages
              basic_prompt_tokens [] in
          Return (system_prompt +:+ join_reversed chat_log_lines +:+ prompt_response,
                  used_tokens)
      end
  end.
(** The slot id after a response: [id_slot] when the key is present, else
    [slot_id] when that key is present, else the one in use. *)
Definition response_slot_id (response_data : ResponseData) (slot_id : Z) : Z :=
  match r_id_slot response_data with
  | Some s => s
  | None =>
      match r_slot_id response_data with
      | Some s => s
      | None => slot_id
      end
  end.

(** [response_data["stopped_eos"] or response_data["stopped_word"]]: the
    second key is read only when the first value is false. *)
Definition response_stopped (response_data : ResponseData) : Result bool :=
  match stopped_eos response_data with
  | None => Raise (KeyError "stopped_eos")
  | Some true => Return true
  | Some false =>
      match stopped_word response_data with
      | None => Raise (KeyError "stopped_word")
      | Some stopped => Return stopped
      end
  end.

Definition llamacpp_params (a : t) (prompt_text : string) (slot : Z) : Params :=
  mk_params prompt_text (temperature a) (top_p a) (top_k a)
    (max_completion_tokens a) slot slot 1 1 (stop_sequences a) true false.

(** The [try] block of one iteration of [complete]: one request; what it
    returns or raises, with the slot id and the slot map it leaves. *)
Definition attempt `{Extern} {B} `{!Backend B} (a : t) (conversation_id : Z)
    (session : Session) (params : Params) (slot : Z)
    (slots : gmap Z (Session * Z)) (b : B)
    : Result (string * nat * bool) * Z * gmap Z (Session * Z) * B :=
  let '(outcome, b) := post session (model_api_url a) params b in
  match outcome with
  | TransportError e => (Raise e, slot, slots, b)
  | Response status body =>
      if decide (status = 200)%Z then
        match body with
        | None => (Raise JSONDecodeError, slot, slots, b)
        | Some response_data =>
            let slot := response_slot_id response_data slot in
            let slots := <[conversation_id := (session, slot)]> slots in
            match response_stopped response_data with
            | Raise e => (Raise e, slot, slots, b)
            | Return stopped =>
                match content response_data with
                | None => (Raise (KeyError "content"), slot, slots, b)
                | Some result =>
                    (Return (result, calculate_number_of_tokens result, stopped),
                     slot, slots, b)
                end
            end
        end
      else
        (Raise (PyException ("Agent::complete(): Non 200 status code: "
                             +:+ pretty status)), slot, slots, b)
  end.

(** The [while tries < max_tries] loop of [complete]; [remaining] is
    [max_tries - tries], which the [finally] clause decreases by one on every
    iteration.  The [except] clause appends what the [try] block raised to
    [errors]. *)
Fixpoint complete_loop `{Extern} {B} `{!Backend B} (a : t) (conversation_id : Z)
    (session : Session) (params : Params) (remaining : nat) (slot : Z)
    (errors : list Exception) (slots : gmap Z (Session * Z)) (b : B)
    : Result (string * nat * bool) * gmap Z (Session * Z) * B :=
  match remaining with
  | O => (Raise (CompleteFailed errors), slots, b)
  | S remaining =>
      match attempt a conversation_id session params slot slots b with
      | (Return result, _, slots, b) => (Return result, slots, b)
      | (Raise e, slot, slots, b) =>
          complete_loop a conversation_id session params remaining slot
            (errors ++ [e]) slots b
      end
  end.

(** The session and slot [complete] starts from: the ones stored for the
    conversation, or a new session with slot [-1]. *)
Definition lookup_slot {B} (a : t) (conversation_id : Z) (w : World B)
    : Session * Z * nat :=
  match model_conversation_slots a !! conversation_id with
  | Some (session, slot) => (session, slot, sessions_opened w)
  | None => (sessions_opened w, (-1)%Z, S (sessions_opened w))
  end.

Definition complete `{Extern} {B} `{!Backend B} (a : t) (prompt_text : string)
    (conversation_id : Z) (w : World B)
    : Result (string * nat * bool) * t * World B :=
  let '(session, slot, opened) := lookup_slot a conversation_id w in
  if decide (model_engine a = "llamacpp") then
    let params := llamacpp_params a prompt_text slot in
    let '(result, slots, b) :=
      complete_loop a conversation_id session params
        (Z.to_nat (max_completion_tries a)) slot []
        (model_conversation_slots a) (backend w) in
    (result, with_slots slots a, mk_world b opened)
  else
    (Raise (PyException "Agent::complete(): unsupported model engine"),
     a, mk_world (backend w) opened).

(** [yield_response] is an asynchronous generator.  Its state between two
    pulls: not started; suspended at [yield completion, stopped] with its
    local variables; or finished. *)
Inductive Generator :=
| Start (messages : list Message.t) (conversation_id : Z)
    (prompt_type : PromptType.t)
| AtYield (max_tries : Z) (conversation_id : Z) (prompt_text : string)
    (completion : string) (stopped : bool) (completion_tokens : nat)
    (completion_try : Z)
| Finished.

Inductive Next :=
| Yield (completion : string) (stopped : bool)
| StopIteration
| Raised (e : Exception).

(** From the test of [while completion_try < max_completion_tries] to the
    next [yield].  Nothing in the loop body assigns [completion_try]. *)
Definition next_round `{Extern} {B} `{!Backend B} (max_tries : Z)
    (conversation_id : Z) (prompt_text : string) (completion_tokens : nat)
    (completion_try : Z) (a : t) (w : World B)
    : Next * Generator * t * World B :=
  if decide (completion_try < max_tries)%Z then
    match complete a prompt_text conversation_id w with
    | (Raise e, a, w) => (Raised e, Finished, a, w)
    | (Return (completion, used_tokens, stopped), a, w) =>
        (Yield completion stopped,
         AtYield max_tries conversation_id prompt_text completion stopped
           (completion_tokens + used_tokens) completion_try,
         a, w)
    end
  else (StopIteration, Finished, a, w).

(** One pull ([__anext__]) of the generator. *)
Definition anext `{Extern} {B} `{!Backend B} (date : string) (g : Generator)
    (a : t) (w : World B) : Next * Generator * t * World B :=
  match g with
  | Start messages conversation_id prompt_type =>
      let max_tries := max_completion_tries a in
      match build_prompt a messages prompt_type date with
      | Raise e => (Raised e, Finished, a, w)
      | Return (prompt_text, _) =>
          next_round max_tries conversation_id prompt_text 0 0%Z a w
      end
  | AtYield max_tries conversation_id prompt_text completion stopped
      completion_tokens completion_try =>
      if stopped then (StopIteration, Finished, a, w)
      else next_round max_tries conversation_id (prompt_text +:+ completion)
             completion_tokens completion_try a w
  | Finished => (StopIteration, Finished, a, w)
  end.

Definition yield_response (messages : list Message.t) (conversation_id : Z)
    (prompt_type : PromptType.t) : Generator :=
  Start messages conversation_id prompt_type.

(** How a consumer's [async for] ends: the generator is exhausted, it
    raised, or the consumer is still pulling after [pulls] pulls. *)
Inductive Ending :=
| Exhausted
| Failed (e : Exception)
| StillRunning.

(** [async for chunk in g]: pull until the generator stops or raises, for
    at most [pulls] pulls; the chunks are collected in order. *)
Fixpoint drive `{Extern} {B} `{!Backend B} (date : string) (pulls : nat)
    (g : Generator) (a : t) (w : World B)
    : list (string * bool) * Ending * t * World B :=
  match pulls with
  | O => ([], StillRunning, a, w)
  | S pulls =>
      match anext date g a w with
      | (Yield completion stopped, g, a, w) =>
          let '(chunks, ending, a, w) := drive date pulls g a w in
          ((completion, stopped) :: chunks, ending, a, w)
      | (StopIteration, _, a, w) => ([], Exhausted, a, w)
      | (Raised e, _, a, w) => ([], Failed e, a, w)
      end
  end.
End Agent.

(** ** bot.py *)

Module Bot.
Import Http.

(** The tables of the database, as one transaction sees them. *)
Record Database := mk_db {
  users : list User.t;
  chats : list Chat.t;
  conversations : list Conversation.t;
  messages : list Message.t;
  summaries : list Summary.t
}.

Definition with_conversations (tbl : list Conversation.t) (db : Database)
    : Database :=
  mk_db (users db) (chats db) tbl (messages db) (summaries db).

Definition with_summaries (tbl : list Summary.t) (db : Database) : Database :=
  mk_db (users db) (chats db) (conversations db) (messages db) tbl.

(** What a handler answers in the chat. *)
Inductive Reply :=
| ChatNotSetUp
| AlreadyActive
| DoesNotExist
| Entered (conversation : Conversation.t)
| NotComplete
| AlreadyPushed (hash : string)
| Pushed (hash : string)
| NoActiveConversation
| SummaryText (summary_id : Z) (text : string)
| SummaryFailed
| UnknownError.

(** [/enter <conversation_id>], from the parsed id on.  The reply to a
    successful enter is built with ["Agenda: " + conversation.agenda], which
    raises [TypeError] for a conversation without agenda: the handler then
    rolls the transaction back and answers with the unknown-error text. *)
Definition enter_command_handler (chat_id conversation_id : Z) (now : datetime)
    (db : Database) : Reply * Database :=
  match Chat.read chat_id (chats db) with
  | None => (ChatNotSetUp, db)
  | Some _ =>
      match Conversation.active chat_id (conversations db) with
      | Some _ => (AlreadyActive, db)
      | None =>
          match Conversation.enter chat_id conversation_id now (conversations db) with
          | (None, _) => (DoesNotExist, db)
          | (Some conversation, tbl) =>
              match Conversation.agenda conversation with
              | None => (UnknownError, db)
              | Some _ => (Entered conversation, with_conversations tbl db)
              end
          end
      end
  end.

(** [/push <conversation_id>], from the parsed id on. *)
Definition push_command_handler `{Extern} (chat_id conversation_id : Z)
    (now : datetime) (db : Database) : Reply * Database :=
  match Chat.read chat_id (chats db) with
  | None => (ChatNotSetUp, db)
  | Some _ =>
      match Conversation.read chat_id conversation_id (conversations db) with
      | None => (DoesNotExist, db)
      | Some (_, conversation) =>
          if decide (Conversation.state conversation
                     ≠ ConversationState.name ConversationState.complete)
          then (NotComplete, db)
          else
            match Conversation.ipfs_hash conversation with
            | Some hash => (AlreadyPushed hash, db)
            | None =>
                let db_messages :=
                  Message.read_all (Conversation.id conversation) None (messages db) in
                match ipfs_add_str (Conversation.agenda conversation)
                        (reverse db_messages) with
                | Raise _ => (UnknownError, db)
                | Return hash =>
                    match Conversation.set_ipfs_hash (Conversation.id conversation)
                            hash now (conversations db) with
                    | (Raise _, _) => (UnknownError, db)
                    | (Return _, tbl) => (Pushed hash, with_conversations tbl db)
                    end
                end
            end
      end
  end.

(** The body of the [async for] of [/summary]: empty chunks are skipped,
    the others are appended to [text]. *)
Definition accumulate (chunks : list (string * bool)) : string :=
  foldl (λ text chunk, if decide (chunk.1 = "") then text else text +:+ chunk.1)
    "" chunks.

(** [/summary].  [now] is the time of the first transaction and [later] the
    time of the second; the result is [None] when the consumer is still
    pulling chunks after [pulls] pulls.  Replies and edits sent to the chat
    are taken to be delivered. *)
Definition summary_command_handler `{Extern} {B} `{!Backend B} (pulls : nat)
    (chat_id : Z) (now later : datetime) (date : string) (db : Database)
    (a : Agent.t) (w : World B) : option (Reply * Database * Agent.t * World B) :=
  match Chat.read chat_id (chats db) with
  | None => Some (ChatNotSetUp, db, a, w)
  | Some _ =>
      match Conversation.active chat_id (conversations db) with
      | None => Some (NoActiveConversation, db, a, w)
      | Some (_, conversation) =>
          let '(summary, tbl) :=
            Summary.create (Conversation.id conversation) now (messages db)
              (summaries db) in
          let fetched :=
            Message.read_all (Conversation.id conversation)
              (Some (Summary.message_count summary)) (messages db) in
          let db := with_summaries tbl db in
          match Agent.drive date pulls
                  (Agent.yield_response fetched (Summary.conversation_id summary)
                     PromptType.summary) a w with
          | (_, Agent.StillRunning, _, _) => None
          | (chunks, ending, a, w) =>
              let text := accumulate chunks in
              let summary_state :=
                match ending with
                | Agent.Failed _ => SummaryState.failed
                | _ => SummaryState.complete
                end in
              let '(marked, tbl) :=
                Summary.mark (Summary.id summary) text summary_state later
                  (summaries db) in
              let reply :=
                match summary_state with
                | SummaryState.failed => SummaryFailed
                | _ => SummaryText (Summary.id summary) text
                end in
              Some (reply, with_summaries tbl db, a, w)
          end
      end
  end.
End Bot.

(** ** Properties the operations are checked against *)

(** At most one conversation of a chat is stored as [active]: two rows of
    one chat that are both active are the same row. *)
Definition single_active (tbl : list Conversation.t) : Prop :=
  ∀ i j ci cj,
    tbl !! i = Some ci → tbl !! j = Some cj →
    Conversation.chat_id ci = Conversation.chat_id cj →
    Conversation.state ci = "active" → Conversation.state cj = "active" →
    i = j.

(** The schema a prompt type renders. *)
Definition schema_of (pm : PromptManager.t) (prompt_type : PromptType.t)
    : PromptManager.SystemPromptSchema :=
  match prompt_type with
  | PromptType.summary => PromptManager.summary_system_prompt_schema pm
  | PromptType.proposal => PromptManager.proposal_system_prompt_schema pm
  end.

(** The response cue of [build_prompt]: the prompt of [prompt_response] for
    no message and no starting text. *)
Definition response_cue (pm : PromptManager.t) : string :=
  "" +:+ PromptManager.user_prepend pm +:+ PromptManager.name pm
     +:+ PromptManager.user_append pm +:+ "".

(** The tokens one message costs in the chat log. *)
Definition line_tokens `{Extern} (pm : PromptManager.t) (message : Message.t) : nat :=
  calculate_number_of_tokens (PromptManager.chat_message pm message).

(** The two errors [build_prompt] raises for a prompt over budget. *)
Definition budget_exceeded (e : Exception) : Prop :=
  e = PyException "build_system_prompt(): system prompt exceeds token limit"
  ∨ e = PyException "prompt_response(): prompt exceeds token limit".

(** What [complete] needs from the agent to send a request at all. *)
Definition can_request (a : Agent.t) : Prop :=
  Agent.model_engine a = "llamacpp" ∧ (0 < Agent.max_completion_tries a)%Z.

Section backend_runs.
Context {B : Type} `{!Http.Backend B}.
Implicit Types (session : Http.Session) (url : string) (params : Http.Params).

(** The backend after [n] requests of one call of [complete]: they all go
    through the same session with the same parameters. *)
Fixpoint post_n session url params (n : nat) (b : B) : B :=
  match n with
  | O => b
  | S n => post_n session url params n (Http.post session url params b).2
  end.

(** The outcome of request number [n], counted from 0. *)
Definition nth_outcome session url params (n : nat) (b : B) : Http.Outcome :=
  (Http.post session url params (post_n session url params n b)).1.

(** A failed request, transport failure or status other than 200, and the
    error [complete] records for it. *)
Definition failure_error (o : Http.Outcome) : option Exception :=
  match o with
  | Http.TransportError e => Some e
  | Http.Response status _ =>
      if decide (status = 200)%Z then None
      else Some (PyException ("Agent::complete(): Non 200 status code: "
                              +:+ pretty status))
  end.

(** The first [length errs] requests fail, with the errors [errs]. *)
Definition failed_attempts session url params (b : B) (errs : list Exception)
    : Prop :=
  ∀ i e, errs !! i = Some e →
         failure_error (nth_outcome session url params i b) = Some e.

(** A request succeeds with [result]: status 200 and a body that has the
    content and the stop flags. *)
Definition succeeds `{Extern} (o : Http.Outcome) (response_data : Http.ResponseData)
    (result : string * nat * bool) : Prop :=
  o = Http.Response 200 (Some response_data)
  ∧ ∃ text stopped,
      Http.content response_data = Some text
      ∧ Agent.response_stopped response_data = Return stopped
      ∧ result = (text, calculate_number_of_tokens text, stopped).

(** The slot id in use after an outcome: only a parsed body of a response
    with status 200 can change it. *)
Definition outcome_slot (o : Http.Outcome) (slot : Z) : Z :=
  match o with
  | Http.Response status (Some response_data) =>
      if decide (status = 200)%Z then Agent.response_slot_id response_data slot
      else slot
  | _ => slot
  end.

(** The slot id in use after the first [n] requests. *)
Fixpoint slot_after session url params (n : nat) (slot : Z) (b : B) : Z :=
  match n with
  | O => slot
  | S n =>
      slot_after session url params n
        (outcome_slot (Http.post session url params b).1 slot)
        (Http.post session url params b).2
  end.

(** An outcome that carries no slot id under either name. *)
Definition no_slot_supplied (o : Http.Outcome) : Prop :=
  ∀ status response_data,
    o = Http.Response status (Some response_data) →
    Http.r_id_slot response_data = None ∧ Http.r_slot_id response_data = None.

(** A backend that answers every request with status 200, a content and
    stop flags that are both false. *)
Definition always_continues : Prop :=
  ∀ session url params (b : B),
    ∃ response_data text,
      (Http.post session url params b).1 = Http.Response 200 (Some response_data)
      ∧ Http.content response_data = Some text
      ∧ Agent.response_stopped response_data = Return false.
End backend_runs.

(** *** Stand-ins for the outside world, to run the model on examples *)

(** A tokenizer that splits at spaces. *)
Fixpoint split_spaces (s current : string) : list string :=
  match s with
  | EmptyString => if decide (current = "") then [] else [current]
  | String c rest =>
      if decide (c = " "%char) then
        if decide (current = "") then split_spaces rest ""
        else current :: split_spaces rest ""
      else split_spaces rest (current +:+ String c "")
  end.

(** Templates without fields, and a content store that gives every
    transcript the same id. *)
Definition toy_extern : Extern :=
  {| word_tokenize s := split_spaces s "";
     str_format template char date := Return template;
     ipfs_add_str agenda history := Return "QmTranscript" |}.

(** A backend that answers request after request from a script, and refuses
    the connection when the script is over. *)
Definition scripted : Http.Backend (list Http.Outcome) :=
  λ _ _ _ script,
    match script with
    | [] => (Http.TransportError (ClientError "connection refused"), [])
    | o :: rest => (o, rest)
    end.

(** A response with status 200 that continues the text and never reports
    the end of the generation. *)
Definition more : Http.Outcome :=
  Http.Response 200
    (Some (Http.mk_response None None (Some false) (Some false) (Some "and more"))).

(** A response with status 200 that ends the generation on a stop word. *)
Definition finished : Http.Outcome :=
  Http.Response 200
    (Some (Http.mk_response None None (Some false) (Some true) (Some "the end"))).

(** A backend that always answers [more]. *)
Definition never_stops : Http.Backend unit := λ _ _ _ b, (more, b).

Definition toy_prompt_manager : PromptManager.t :=
  PromptManager.mk "<" "> " "" ["</s>"] "</s>" " " "chat-bot"
    (PromptManager.mk_schema "You are a scribe." " Summarize the chat.")
    (PromptManager.mk_schema "You are a delegate." " Draft a proposal.").

(** An agent with a prompt budget of 16 tokens and at most 2 tries. *)
Definition toy_agent : Agent.t :=
  Agent.mk "toy" "http://localhost:8080/completion" "llamacpp" 64 16
    (QArith_base.Qmake 7 10) [] (QArith_base.Qmake 9 10) 40 ["</s>"] 2 ∅
    toy_prompt_manager.

(** The same agent after an earlier call for conversation 5 left session 0
    and slot 3 in its slot map. *)
Definition toy_agent_with_slot : Agent.t :=
  Agent.with_slots {[ 5%Z := (0, 3%Z) ]} toy_agent.

(** Two conversations of chat 7: the first active, the second inactive. *)
Definition two_conversations : list Conversation.t :=
  [ Conversation.mk 1 7 (Some "budget") "active" None 10%Z 10%Z;
    Conversation.mk 2 7 (Some "roadmap") "inactive" None 20%Z 30%Z ].

Definition alice : User.t := User.mk 1 (Some "alice") None None None.
Definition bob : User.t := User.mk 2 None (Some "Bob") (Some "Builder") None.

(** Two messages of conversation 1 and one message of conversation 2. *)
Definition three_messages : list Message.t :=
  [ Message.mk 11 1 alice None "shall we vote" 100%Z;
    Message.mk 12 1 bob (Some alice) "yes" 110%Z;
    Message.mk 13 2 alice None "other topic" 120%Z ].

(** Conversation 1 of chat 7, complete and already published. *)
Definition pushed_conversation : list Conversation.t :=
  [ Conversation.mk 1 7 (Some "budget") "complete" (Some "QmFirst") 10%Z 40%Z ].

(** Conversation 1 of chat 7, complete and not yet published. *)
Definition complete_conversation : list Conversation.t :=
  [ Conversation.mk 1 7 (Some "budget") "complete" None 10%Z 40%Z ].

(** Chat 7 with that conversation, before and after [/push 1] at time 50. *)
Definition unpublished_database : Bot.Database :=
  Bot.mk_db [] [Chat.mk 7 "0xda0" 1 5%Z 5%Z] complete_conversation [] [].

Definition published_database : Bot.Database :=
  Bot.mk_db [] [Chat.mk 7 "0xda0" 1 5%Z 5%Z]
    [ Conversation.mk 1 7 (Some "budget") "complete" (Some "QmTranscript")
        10%Z 50%Z ] [] [].

(** A summary of conversation 1, created and not yet marked. *)
Definition pending_summary : list Summary.t :=
  [ Summary.mk 1 1 2 "pending" None 100%Z 100%Z ].

(** Chat 7 with its two conversations and the three messages. *)
Definition toy_database : Bot.Database :=
  Bot.mk_db [alice; bob] [Chat.mk 7 "0xda0" 1 5%Z 5%Z] two_conversations
    three_messages [].

(** A response with a status other than 200. *)
Definition unavailable : Http.Outcome := Http.Response 503 None.

(** The messages of one conversation, in table order. *)
Definition messages_of (conversation : Z) (tbl : list Message.t) : list Message.t :=
  filter (λ m, Message.conversation_id m = conversation) tbl.

(** ** More of database.py *)

Module DatabaseError.
Inductive t := conflict | not_found | invalid.
End DatabaseError.

(** [needle in haystack] on strings. *)
Fixpoint contains (needle haystack : string) : bool :=
  if String.prefix needle haystack then true
  else
    match haystack with
    | EmptyString => false
    | String _ rest => contains needle rest
    end.

Module DatabaseException.
(** [from_sqlalchemy_error] on the text [str(e)] of an exception: the kind of
    database error it is turned into, or [None] when it is passed through. *)
Definition from_sqlalchemy_error (text : string) : option DatabaseError.t :=
  if contains "FOREIGN KEY constraint failed" text then Some DatabaseError.invalid
  else if contains "UNIQUE constraint failed" text then Some DatabaseError.conflict
  else if contains "No row was found for one" text then Some DatabaseError.not_found
  else if contains "CHECK constraint failed" text then Some DatabaseError.invalid
  else None.
End DatabaseException.

(** The integers an [Integer] column of SQLite holds: signed, 64 bits. *)
Definition int64 (n : Z) : Prop := (- 2 ^ 63 ≤ n < 2 ^ 63)%Z.

Global Instance int64_dec (n : Z) : Decision (int64 n).
Proof. unfold int64. apply _. Defined.

Module Chats.
(** What [Chat.create] gives: the chat, or the exception of the flush as
    [from_sqlalchemy_error] leaves it: a [DatabaseException] with its kind,
    or [None] for an exception that is passed on as it is. *)
Inductive Created :=
| Ok (chat : Chat.t)
| Failed (error : option DatabaseError.t).

(** [Chat.create].  The flush binds [chat_id] and [chain_id] to the
    [INSERT]; the driver raises [OverflowError] for a Python integer that
    does not fit 64 bits, before the statement runs.  The table has the
    primary key [id] and the unique constraint on [(dao_address, chain_id)];
    SQLite refuses a row that breaks either with a message that names the
    columns.  Nothing is stored when the flush raises. *)
Definition create (chat_id : Z) (dao_address : string) (chain_id : Z)
    (now : datetime) (chats : list Chat.t) : Created * list Chat.t :=
  if decide (¬ (int64 chat_id ∧ int64 chain_id)) then
    (Failed (DatabaseException.from_sqlalchemy_error
               "Python int too large to convert to SQLite INTEGER"), chats)
  else if decide (Exists (λ c, Chat.id c = chat_id) chats) then
    (Failed (DatabaseException.from_sqlalchemy_error
               "UNIQUE constraint failed: chats.id"), chats)
  else if decide (Exists (λ c, Chat.dao_address c = dao_address
                               ∧ Chat.chain_id c = chain_id) chats) then
    (Failed (DatabaseException.from_sqlalchemy_error
               "UNIQUE constraint failed: chats.dao_address, chats.chain_id"),
     chats)
  else
    let chat := Chat.mk chat_id dao_address chain_id now now in
    (Ok chat, chats ++ [chat]).

Definition read_by_dao (dao_address : string) (chain_id : Z)
    (chats : list Chat.t) : option (nat * Chat.t) :=
  list_find (λ c, Chat.dao_address c = dao_address ∧ Chat.chain_id c = chain_id)
    chats.
End Chats.

Module Conversations.
(** [Conversation.read_all]: the conversations of a chat. *)
Definition read_all (chat : Z) (tbl : list Conversation.t) : list Conversation.t :=
  filter (λ c, Conversation.chat_id c = chat) tbl.
End Conversations.

(** ** More of bot.py *)

(** [text.split(" ")]: the pieces between single spaces, empty pieces
    included; [current] is the piece being read. *)
Fixpoint split_space (text current : string) : list string :=
  match text with
  | EmptyString => [current]
  | String c rest =>
      if decide (c = " "%char) then current :: split_space rest ""
      else split_space rest (current +:+ String c "")
  end.

Module Handlers.
(** The replies of the handlers below. *)
Inductive Answer :=
| AskForAgenda
| NotSetUp
| Welcome
| ChatExists
| NoAnswer
| HasActive
| Started (conversation : Conversation.t)
| NothingActive
| Updated (conversation : Conversation.t)
| Failure.

Definition with_chats (tbl : list Chat.t) (db : Bot.Database) : Bot.Database :=
  Bot.mk_db (Bot.users db) tbl (Bot.conversations db) (Bot.messages db)
    (Bot.summaries db).

(** [/start <dao_address> <chain_id>], from the parsed arguments on; the
    chain id is any integer that [int] reads.  For a database error other
    than a conflict the handler sends nothing, and for an exception that is
    no [DatabaseException] it answers with the unknown-error text; both roll
    the transaction back. *)
Definition start_command_handler (chat_id : Z) (dao_address : string)
    (chain_id : Z) (now : datetime) (db : Bot.Database) : Answer * Bot.Database :=
  match Chats.create chat_id dao_address chain_id now (Bot.chats db) with
  | (Chats.Ok _, tbl) => (Welcome, with_chats tbl db)
  | (Chats.Failed (Some DatabaseError.conflict), _) => (ChatExists, db)
  | (Chats.Failed (Some _), _) => (NoAnswer, db)
  | (Chats.Failed None, _) => (Failure, db)
  end.

(** The agenda of [/new]: what follows the command, without empty words;
    [None] when nothing follows the command, not even a space. *)
Definition parse_agenda (text : string) : option string :=
  let agenda := tail (split_space text "") in
  if decide (length agenda = 0) then None
  else Some (String.concat " " (filter (λ word, word ≠ "") agenda)).

(** [/new <agenda>] *)
Definition new_command_handler (chat_id : Z) (text : string) (now : datetime)
    (db : Bot.Database) : Answer * Bot.Database :=
  match parse_agenda text with
  | None => (AskForAgenda, db)
  | Some agenda =>
      match Chat.read chat_id (Bot.chats db) with
      | None => (NotSetUp, db)
      | Some _ =>
          match Conversation.create chat_id agenda now (Bot.conversations db) with
          | (None, _) => (HasActive, db)
          | (Some conversation, tbl) =>
              (Started conversation, Bot.with_conversations tbl db)
          end
      end
  end.

(** The common body of [/exit], [/cancel] and [/complete], which differ in
    the state they pass to [update_state]. *)
Definition state_command_handler (new_state : ConversationState.t) (chat_id : Z)
    (now : datetime) (db : Bot.Database) : Answer * Bot.Database :=
  match Chat.read chat_id (Bot.chats db) with
  | None => (NotSetUp, db)
  | Some _ =>
      match Conversation.update_state chat_id new_state now (Bot.conversations db) with
      | (Raise _, _) => (Failure, db)
      | (Return None, _) => (NothingActive, db)
      | (Return (Some conversation), tbl) =>
          (Updated conversation, Bot.with_conversations tbl db)
      end
  end.

Definition exit_command_handler := state_command_handler ConversationState.inactive.
Definition cancel_command_handler := state_command_handler ConversationState.cancelled.
Definition complete_command_handler := state_command_handler ConversationState.complete.

(** A command sent to the bot, with the time it is handled at. *)
Inductive Command :=
| Start (chat_id : Z) (dao_address : string) (chain_id : Z)
| New (chat_id : Z) (text : string)
| Enter (chat_id conversation_id : Z)
| Exit (chat_id : Z)
| Cancel (chat_id : Z)
| Complete (chat_id : Z)
| Push (chat_id conversation_id : Z).

(** The database after one command. *)
Definition handle `{Extern} (command : Command) (now : datetime)
    (db : Bot.Database) : Bot.Database :=
  match command with
  | Start chat_id dao_address chain_id =>
      (start_command_handler chat_id dao_address chain_id now db).2
  | New chat_id text => (new_command_handler chat_id text now db).2
  | Enter chat_id conversation_id =>
      (Bot.enter_command_handler chat_id conversation_id now db).2
  | Exit chat_id => (exit_command_handler chat_id now db).2
  | Cancel chat_id => (cancel_command_handler chat_id now db).2
  | Complete chat_id => (complete_command_handler chat_id now db).2
  | Push chat_id conversation_id =>
      (Bot.push_command_handler chat_id conversation_id now db).2
  end.

(** The database after a sequence of commands, handled one after the
    other. *)
Definition run `{Extern} (commands : list (Command * datetime))
    (db : Bot.Database) : Bot.Database :=
  foldl (λ db command, handle command.1 command.2 db) db commands.
End Handlers.

(** ** server.py *)

Module Server.
Record TranscriptResponse := mk_transcript {
  id : Z;
  agenda : string;
  ipfs_hash : string
}.

(** The answer of an endpoint: a status with a detail, or the body. *)
Inductive Answer (A : Type) :=
| HTTPException (status : Z) (detail : string)
| Body (body : A).
Arguments HTTPException {A} _ _.
Arguments Body {A} _.

(** [TranscriptResponse(id=..., agenda=..., ipfs_hash=...)]: both strings
    are required, a [None] fails the validation. *)
Definition transcript (c : Conversation.t) : option TranscriptResponse :=
  match Conversation.agenda c, Conversation.ipfs_hash c with
  | Some agenda_text, Some hash => Some (mk_transcript (Conversation.id c) agenda_text hash)
  | _, _ => None
  end.

(** [GET /api/transcripts?dao_addr=...&chain_id=...] *)
Definition get_transcripts (dao_addr : string) (chain_id : Z) (db : Bot.Database)
    : Answer (list TranscriptResponse) :=
  match Chats.read_by_dao dao_addr chain_id (Bot.chats db) with
  | None => HTTPException 404 "Chat not found"
  | Some (_, chat) =>
      match mapM transcript
              (Conversation.read_pushed (Chat.id chat) (Bot.conversations db)) with
      | Some transcripts => Body transcripts
      | None => HTTPException 500 "An error occurred while fetching transcripts"
      end
  end.
End Server.

(** ** Properties of the tables *)

(** The primary keys of the conversations table are pairwise distinct. *)
Definition conversation_keys (tbl : list Conversation.t) : Prop :=
  NoDup (Conversation.id <$> tbl).

(** The chats table keeps its primary key and its unique constraint. *)
Definition chat_keys (chats : list Chat.t) : Prop :=
  NoDup (Chat.id <$> chats)
  ∧ NoDup ((λ c, (Chat.dao_address c, Chat.chain_id c)) <$> chats).

(** A database whose tables keep their keys and that has at most one active
    conversation per chat. *)
Definition well_formed (db : Bot.Database) : Prop :=
  chat_keys (Bot.chats db)
  ∧ conversation_keys (Bot.conversations db)
  ∧ single_active (Bot.conversations db).

Definition empty_database : Bot.Database := Bot.mk_db [] [] [] [] [].

(** The columns of a conversation that no operation assigns after the row
    is created. *)
Definition identity_of (c : Conversation.t) : Z * Z * option string * datetime :=
  (Conversation.id c, Conversation.chat_id c, Conversation.agenda c,
   Conversation.created_at c).

(** [tbl'] continues [tbl]: every row of [tbl] is still there, at the same
    place, with the same id, chat, agenda and creation time, and with the
    same content id if it had one. *)
Definition history_extends (tbl tbl' : list Conversation.t) : Prop :=
  ∀ i c, tbl !! i = Some c →
    ∃ c', tbl' !! i = Some c'
      ∧ identity_of c' = identity_of c
      ∧ ∀ h, Conversation.ipfs_hash c = Some h → Conversation.ipfs_hash c' = Some h.

(** The shape of what a consumer has seen: only the last chunk can be
    marked stopped; an exhausted stream ends with a chunk marked stopped; a
    stream that failed has no chunk marked stopped. *)
Definition seen_so_far (chunks : list (string * bool)) (ending : Agent.Ending)
    : Prop :=
  (∀ i text, chunks !! i = Some (text, true) → S i = length chunks)
  ∧ (ending = Agent.Exhausted → ∃ text, last chunks = Some (text, true))
  ∧ (∀ e, ending = Agent.Failed e → Forall (λ chunk, chunk.2 = false) chunks).

(** The character [c] does not occur in the string. *)
Fixpoint lacks (c : ascii) (s : string) : Prop :=
  match s with
  | EmptyString => True
  | String x rest => x ≠ c ∧ lacks c rest
  end.

(** ** The conversation state machine *)

Section conversation_invariant.
Implicit Types (tbl : list Conversation.t) (c : Conversation.t).

Lemma active_Some chat tbl i c :
  Conversation.active chat tbl = Some (i, c) →
  tbl !! i = Some c ∧ Conversation.chat_id c = chat ∧ Conversation.state c = "active".
Proof.
  unfold Conversation.active. intros Hfind.
  apply list_find_Some in Hfind as (Hi & [Hchat Hstate] & _). done.
Qed.

Lemma active_None chat tbl j c :
  Conversation.active chat tbl = None → tbl !! j = Some c →
  Conversation.chat_id c = chat → Conversation.state c ≠ "active".
Proof.
  unfold Conversation.active. intros Hfind Hj Hchat Hstate.
  apply list_find_None in Hfind.
  eapply Forall_lookup_1 in Hfind; [|exact Hj]. naive_solver.
Qed.

Lemma read_Some chat conversation_id tbl i c :
  Conversation.read chat conversation_id tbl = Some (i, c) →
  tbl !! i = Some c ∧ Conversation.id c = conversation_id
  ∧ Conversation.chat_id c = chat.
Proof.
  unfold Conversation.read. intros Hfind.
  apply list_find_Some in Hfind as (Hi & [Hid Hchat] & _). done.
Qed.

(** Replacing a row by one of the same chat that is active only if the old
    one was keeps the invariant. *)
Lemma single_active_insert_weaker tbl i c c' :
  single_active tbl → tbl !! i = Some c →
  Conversation.chat_id c' = Conversation.chat_id c →
  (Conversation.state c' = "active" → Conversation.state c = "active") →
  single_active (<[i := c']> tbl).
Proof.
  intros Hinv Hi Hchat Hstate j k cj ck Hj Hk Hsame Haj Hak.
  apply list_lookup_insert_Some in Hj as [(<- & <- & _)|[Hne Hj]];
    apply list_lookup_insert_Some in Hk as [(<- & <- & _)|[Hne' Hk]];
    try done.
  - apply (Hinv i k c ck); auto. congruence.
  - apply (Hinv j i cj c); auto. congruence.
  - by apply (Hinv j k cj ck).
Qed.

(** Activating a row of a chat that has no active row keeps the
    invariant. *)
Lemma single_active_insert_active tbl chat i c c' :
  single_active tbl → Conversation.active chat tbl = None →
  tbl !! i = Some c → Conversation.chat_id c = chat →
  Conversation.chat_id c' = chat →
  single_active (<[i := c']> tbl).
Proof.
  intros Hinv Hnone Hi Hchat Hchat' j k cj ck Hj Hk Hsame Haj Hak.
  apply list_lookup_insert_Some in Hj as [(<- & <- & _)|[Hne Hj]];
    apply list_lookup_insert_Some in Hk as [(<- & <- & _)|[Hne' Hk]];
    try done.
  - exfalso. eapply (active_None chat tbl k ck); eauto. congruence.
  - exfalso. eapply (active_None chat tbl j cj); eauto. congruence.
  - by apply (Hinv j k cj ck).
Qed.

Lemma create_single_active chat agenda now tbl :
  single_active tbl → single_active (Conversation.create chat agenda now tbl).2.
Proof.
  intros Hinv. unfold Conversation.create.
  destruct (Conversation.active chat tbl) as [found|] eqn:Hactive; [done|].
  simpl. intros j k cj ck Hj Hk Hsame Haj Hak.
  apply lookup_app_Some in Hj as [Hj|[Hlj Hj]];
    apply lookup_app_Some in Hk as [Hk|[Hlk Hk]].
  - by apply (Hinv j k cj ck).
  - exfalso. apply list_lookup_singleton_Some in Hk as [_ <-]. simpl in Hsame.
    by eapply (active_None chat tbl j cj).
  - exfalso. apply list_lookup_singleton_Some in Hj as [_ <-]. simpl in Hsame.
    by eapply (active_None chat tbl k ck).
  - apply list_lookup_singleton_Some in Hj as [Hj _].
    apply list_lookup_singleton_Some in Hk as [Hk _]. lia.
Qed.

Lemma update_state_single_active chat s now tbl :
  single_active tbl → single_active (Conversation.update_state chat s now tbl).2.
Proof.
  intros Hinv. unfold Conversation.update_state.
  destruct (decide (s = ConversationState.active)) as [|Hs]; [done|].
  destruct (Conversation.active chat tbl) as [[i c]|] eqn:Hactive; [|done].
  apply active_Some in Hactive as (Hi & _ & _). simpl.
  eapply single_active_insert_weaker; eauto. simpl. by destruct s.
Qed.

Lemma set_ipfs_hash_single_active conversation_id hash now tbl :
  single_active tbl →
  single_active (Conversation.set_ipfs_hash conversation_id hash now tbl).2.
Proof.
  intros Hinv. unfold Conversation.set_ipfs_hash.
  destruct (list_find _ tbl) as [[i c]|] eqn:Hfind; [|done].
  apply list_find_Some in Hfind as (Hi & _ & _). simpl.
  eapply single_active_insert_weaker; eauto.
Qed.

Lemma enter_single_active chat conversation_id now tbl :
  single_active tbl → Conversation.active chat tbl = None →
  single_active (Conversation.enter chat conversation_id now tbl).2.
Proof.
  intros Hinv Hnone. unfold Conversation.enter.
  destruct (Conversation.read chat conversation_id tbl) as [[i c]|] eqn:Hread;
    [|done].
  apply read_Some in Hread as (Hi & _ & Hchat). simpl.
  eapply single_active_insert_active; eauto.
Qed.

Lemma enter_None chat conversation_id now tbl :
  (Conversation.enter chat conversation_id now tbl).1 = None
  ↔ Conversation.read chat conversation_id tbl = None.
Proof.
  unfold Conversation.enter.
  by destruct (Conversation.read chat conversation_id tbl) as [[i c]|].
Qed.

Lemma enter_command_handler_single_active chat conversation_id now db :
  single_active (Bot.conversations db) →
  single_active (Bot.conversations
    (Bot.enter_command_handler chat conversation_id now db).2).
Proof.
  intros Hinv. unfold Bot.enter_command_handler.
  destruct (Chat.read chat (Bot.chats db)); [|done].
  destruct (Conversation.active chat (Bot.conversations db)) eqn:Hactive; [done|].
  pose proof (enter_single_active chat conversation_id now _ Hinv Hactive) as Hent.
  destruct (Conversation.enter chat conversation_id now (Bot.conversations db))
    as [[c|] tbl']; [|done].
  by destruct (Conversation.agenda c).
Qed.
End conversation_invariant.

Lemma two_conversations_single_active : single_active two_conversations.
Proof.
  intros i j ci cj Hi Hj _ Hai Haj.
  destruct i as [|[|i]], j as [|[|j]]; simplify_eq/=; done.
Qed.

(** C1, as stated, fails on [Conversation.enter]: with conversation 1 of
    chat 7 active, entering conversation 2 returns that conversation (not a
    no-result) and leaves two active conversations in the chat. *)
Lemma enter_breaks_single_active :
  single_active two_conversations
  ∧ ∃ c tbl,
      Conversation.enter 7 2 100%Z two_conversations = (Some c, tbl)
      ∧ ¬ single_active tbl.
Proof.
  split; [apply two_conversations_single_active|].
  eexists _, _. split; [reflexivity|].
  intros Hinv.
  assert (0 = 1)%nat as Habs; [|discriminate Habs].
  eapply Hinv; reflexivity.
Qed.

(** [Conversation.enter] reads the target by id and chat only: it stores
    the target as active whatever state it is stored in. *)
Lemma enter_ignores_state (chat conversation_id : Z) (now : datetime)
    (tbl : list Conversation.t) (i : nat) (c : Conversation.t) :
  Conversation.read chat conversation_id tbl = Some (i, c) →
  Conversation.enter chat conversation_id now tbl
  = (Some (Conversation.set_state "active" now c),
     <[i := Conversation.set_state "active" now c]> tbl).
Proof. intros Hread. unfold Conversation.enter. by rewrite Hread. Qed.

(** C1 (amended): at most one conversation per chat is active, and the
    invariant is preserved by every operation as the bot invokes it: by
    [create] (a no-result when the chat has an active conversation), by
    [update_state], by [set_ipfs_hash] and by the [/enter] command, which
    moves a conversation inactive to active only under the single-active
    guard and changes nothing when the target does not exist or the chat has
    an active conversation.  The guard is the [Conversation.active] check of
    the command handler; [Conversation.enter] has none: it returns a
    no-result, and changes nothing, exactly when the target does not exist
    in the chat, and it moves an inactive target to active also when another
    conversation of the chat is active; it preserves the invariant when the
    chat has no active conversation. *)
Theorem single_active_preserved (db : Bot.Database) (chat conversation_id : Z)
    (agenda hash : string) (s : ConversationState.t) (now : datetime) :
  single_active (Bot.conversations db) →
  single_active (Conversation.create chat agenda now (Bot.conversations db)).2
  ∧ (is_Some (Conversation.active chat (Bot.conversations db)) →
     Conversation.create chat agenda now (Bot.conversations db)
     = (None, Bot.conversations db))
  ∧ single_active
      (Conversation.update_state chat s now (Bot.conversations db)).2
  ∧ single_active
      (Conversation.set_ipfs_hash conversation_id hash now (Bot.conversations db)).2
  ∧ single_active
      (Bot.conversations (Bot.enter_command_handler chat conversation_id now db).2)
  ∧ (is_Some (Conversation.active chat (Bot.conversations db))
     ∨ Conversation.read chat conversation_id (Bot.conversations db) = None →
     (Bot.enter_command_handler chat conversation_id now db).2 = db)
  ∧ (∀ i c,
       is_Some (Chat.read chat (Bot.chats db)) →
       Conversation.active chat (Bot.conversations db) = None →
       Conversation.read chat conversation_id (Bot.conversations db) = Some (i, c) →
       Conversation.state c = "inactive" →
       is_Some (Conversation.agenda c) →
       Bot.enter_command_handler chat conversation_id now db
       = (Bot.Entered (Conversation.set_state "active" now c),
          Bot.with_conversations
            (<[i := Conversation.set_state "active" now c]> (Bot.conversations db))
            db))
  ∧ ((Conversation.enter chat conversation_id now (Bot.conversations db)).1 = None
     ↔ Conversation.read chat conversation_id (Bot.conversations db) = None)
  ∧ (Conversation.read chat conversation_id (Bot.conversations db) = None →
     Conversation.enter chat conversation_id now (Bot.conversations db)
     = (None, Bot.conversations db))
  ∧ (∀ i c,
       Conversation.read chat conversation_id (Bot.conversations db) = Some (i, c) →
       Conversation.state c = "inactive" →
       Conversation.enter chat conversation_id now (Bot.conversations db)
       = (Some (Conversation.set_state "active" now c),
          <[i := Conversation.set_state "active" now c]> (Bot.conversations db)))
  ∧ (Conversation.active chat (Bot.conversations db) = None →
     single_active
       (Conversation.enter chat conversation_id now (Bot.conversations db)).2).
Proof.
  intros Hinv. split_and!.
  - by apply create_single_active.
  - intros [found Hfound]. unfold Conversation.create. by rewrite Hfound.
  - by apply update_state_single_active.
  - by apply set_ipfs_hash_single_active.
  - by apply enter_command_handler_single_active.
  - intros Hguard. unfold Bot.enter_command_handler.
    destruct (Chat.read chat (Bot.chats db)); [|done].
    destruct (Conversation.active chat (Bot.conversations db)) as [found|];
      [done|].
    destruct Hguard as [[found Hfound]|Hread]; [done|].
    unfold Conversation.enter. by rewrite Hread.
  - intros i c [chat_row Hchat] Hactive Hread _ [agenda_text Hagenda].
    unfold Bot.enter_command_handler.
    rewrite Hchat, Hactive, (enter_ignores_state _ _ _ _ _ _ Hread).
    simpl. by rewrite Hagenda.
  - by apply enter_None.
  - intros Hread. unfold Conversation.enter. by rewrite Hread.
  - intros i c Hread _. by apply enter_ignores_state.
  - intros Hnone. by apply enter_single_active.
Qed.

(** The theorem at chat 7 with its two conversations: the hypothesis holds
    there, and [/enter 2] leaves the table with one active conversation. *)
Lemma single_active_preserved_witness :
  single_active two_conversations
  ∧ single_active
      (Bot.conversations
         (Bot.enter_command_handler 7 2 100%Z
            (Bot.mk_db [] [Chat.mk 7 "0xda0" 1 5%Z 5%Z] two_conversations [] [])).2).
Proof.
  split; [apply two_conversations_single_active|].
  apply (single_active_preserved
           (Bot.mk_db [] [Chat.mk 7 "0xda0" 1 5%Z 5%Z] two_conversations [] [])
           7 2 "budget" "Qm" ConversationState.inactive 100%Z).
  apply two_conversations_single_active.
Defined.

(** ** Summaries and published content ids *)

(** C3: [Summary.create] stores the number of rows of the whole messages
    table, whatever conversation they belong to; for conversation 1 of
    [three_messages], which has two messages, it stores 3. *)
Theorem summary_create_counts_all_messages :
  (∀ conversation now messages tbl,
     Summary.message_count (Summary.create conversation now messages tbl).1
     = Z.of_nat (length messages))
  ∧ Summary.message_count (Summary.create 1 200%Z three_messages []).1 = 3%Z
  ∧ length (messages_of 1 three_messages) = 2%nat.
Proof. split; [done|]. split; reflexivity. Qed.

(** C4, as stated, fails on [set_ipfs_hash]: a second call with a different
    id replaces the content id that is already set. *)
Lemma set_ipfs_hash_overwrites :
  ∃ c tbl,
    Conversation.set_ipfs_hash 1 "QmSecond" 50%Z pushed_conversation = (Return c, tbl)
    ∧ Conversation.ipfs_hash <$> pushed_conversation !! 0%nat = Some (Some "QmFirst")
    ∧ Conversation.ipfs_hash <$> tbl !! 0%nat = Some (Some "QmSecond").
Proof. eexists _, _. split; [reflexivity|]. split; reflexivity. Qed.

Section content_id.
Context `{Extern}.
Implicit Types (tbl : list Conversation.t) (c : Conversation.t).

Lemma set_ipfs_hash_Return conversation_id hash now tbl c tbl' :
  Conversation.set_ipfs_hash conversation_id hash now tbl = (Return c, tbl') →
  ∃ i c0, tbl !! i = Some c0 ∧ Conversation.id c0 = conversation_id
    ∧ Conversation.state c0 = "complete"
    ∧ c = Conversation.with_ipfs_hash hash now c0 ∧ tbl' = <[i := c]> tbl.
Proof.
  unfold Conversation.set_ipfs_hash.
  destruct (list_find _ tbl) as [[i c0]|] eqn:Hfind; [|done].
  intros [= <- <-]. apply list_find_Some in Hfind as (Hi & [Hid Hstate] & _).
  by exists i, c0.
Qed.

Lemma set_ipfs_hash_Raise conversation_id hash now tbl e tbl' :
  Conversation.set_ipfs_hash conversation_id hash now tbl = (Raise e, tbl') →
  tbl' = tbl
  ∧ ∀ c, c ∈ tbl → Conversation.id c = conversation_id →
         Conversation.state c ≠ "complete".
Proof.
  unfold Conversation.set_ipfs_hash.
  destruct (list_find _ tbl) as [[i c0]|] eqn:Hfind; [done|].
  intros [= _ <-]. split; [done|]. intros c Hc Hid Hstate.
  apply list_find_None in Hfind. rewrite Forall_forall in Hfind.
  by apply (Hfind c Hc).
Qed.

Lemma push_refused chat conversation_id now db i c :
  Conversation.read chat conversation_id (Bot.conversations db) = Some (i, c) →
  Conversation.state c ≠ "complete" ∨ is_Some (Conversation.ipfs_hash c) →
  (Bot.push_command_handler chat conversation_id now db).2 = db.
Proof.
  intros Hread Hguard. unfold Bot.push_command_handler.
  destruct (Chat.read chat (Bot.chats db)); [|done]. rewrite Hread.
  case_decide; [done|].
  destruct Hguard as [Hstate|[h Hh]]; [by destruct Hstate|]. by rewrite Hh.
Qed.

Lemma push_Pushed chat conversation_id now db h :
  (Bot.push_command_handler chat conversation_id now db).1 = Bot.Pushed h →
  ∃ i c, Conversation.read chat conversation_id (Bot.conversations db) = Some (i, c)
    ∧ Conversation.state c = "complete" ∧ Conversation.ipfs_hash c = None.
Proof.
  unfold Bot.push_command_handler.
  destruct (Chat.read chat (Bot.chats db)); [|done].
  destruct (Conversation.read _ _ _) as [[i c]|]; [|done].
  case_decide as Hstate; [done|].
  destruct (Conversation.ipfs_hash c) eqn:Hhash; [done|].
  intros _. by exists i, c.
Qed.
(** Rows with the same primary key are the same row. *)
Lemma primary_key_lookup tbl i j c c' :
  NoDup (Conversation.id <$> tbl) → tbl !! i = Some c → tbl !! j = Some c' →
  Conversation.id c = Conversation.id c' → i = j.
Proof.
  intros Hnodup Hi Hj Hid.
  eapply (NoDup_lookup _ i j (Conversation.id c) Hnodup);
    rewrite list_lookup_fmap; [by rewrite Hi|by rewrite Hj, Hid].
Qed.

Lemma push_twice chat conversation_id now later db h db' :
  NoDup (Conversation.id <$> Bot.conversations db) →
  Bot.push_command_handler chat conversation_id now db = (Bot.Pushed h, db') →
  Bot.push_command_handler chat conversation_id later db' = (Bot.AlreadyPushed h, db').
Proof.
  intros Hnodup. unfold Bot.push_command_handler.
  destruct (Chat.read chat (Bot.chats db)) as [chat_row|] eqn:Hchat; [|done].
  destruct (Conversation.read chat conversation_id (Bot.conversations db))
    as [[i c]|] eqn:Hread; [|done].
  case_decide as Hstate; [done|].
  destruct (Conversation.ipfs_hash c) eqn:Hhash; [done|].
  destruct (ipfs_add_str _ _) as [h0|]; [|done].
  destruct (Conversation.set_ipfs_hash _ _ _ _) as [[c1|] tbl1] eqn:Hset; [|done].
  intros [= <- <-]. simpl. rewrite Hchat.
  apply set_ipfs_hash_Return in Hset as (i' & c0 & Hi' & Hid & _ & -> & ->).
  pose proof Hread as (Hi & Hcid & Hcchat)%read_Some.
  assert (i' = i) as -> by (eapply primary_key_lookup; eauto; congruence).
  assert (c0 = c) as -> by congruence.
  assert (Conversation.read chat conversation_id
            (<[i := Conversation.with_ipfs_hash h0 now c]> (Bot.conversations db))
          = Some (i, Conversation.with_ipfs_hash h0 now c)) as ->.
  { unfold Conversation.read in *.
    apply list_find_Some in Hread as (_ & _ & Hleast).
    apply list_find_insert_Some. right; left.
    split_and!; eauto using lookup_lt_Some. }
  simpl. case_decide; done.
Qed.
End content_id.

(** C4 (amended): [set_ipfs_hash] writes the content id only to a
    conversation stored as [complete] (it raises and changes nothing when no
    conversation with that id is complete), and it does not look at the
    content id already stored.  Publish-once is the guard of the [/push]
    handler: it changes nothing for a conversation that is not complete or
    already has a content id, it publishes only a complete conversation
    without content id, and a second [/push] after a successful one answers
    with the original content id and changes nothing. *)
Theorem set_ipfs_hash_publish_once `{Extern} (db : Bot.Database)
    (chat conversation_id : Z) (hash : string) (now later : datetime) :
  (∀ c tbl,
     Conversation.set_ipfs_hash conversation_id hash now (Bot.conversations db)
     = (Return c, tbl) →
     ∃ i c0, Bot.conversations db !! i = Some c0
       ∧ Conversation.id c0 = conversation_id
       ∧ Conversation.state c0 = "complete"
       ∧ c = Conversation.with_ipfs_hash hash now c0
       ∧ tbl = <[i := c]> (Bot.conversations db))
  ∧ (∀ e tbl,
       Conversation.set_ipfs_hash conversation_id hash now (Bot.conversations db)
       = (Raise e, tbl) →
       tbl = Bot.conversations db
       ∧ ∀ c, c ∈ Bot.conversations db → Conversation.id c = conversation_id →
              Conversation.state c ≠ "complete")
  ∧ (∀ i c,
       Conversation.read chat conversation_id (Bot.conversations db) = Some (i, c) →
       Conversation.state c ≠ "complete" ∨ is_Some (Conversation.ipfs_hash c) →
       (Bot.push_command_handler chat conversation_id now db).2 = db)
  ∧ (∀ h,
       (Bot.push_command_handler chat conversation_id now db).1 = Bot.Pushed h →
       ∃ i c,
         Conversation.read chat conversation_id (Bot.conversations db) = Some (i, c)
         ∧ Conversation.state c = "complete" ∧ Conversation.ipfs_hash c = None)
  ∧ (NoDup (Conversation.id <$> Bot.conversations db) →
     ∀ h db',
       Bot.push_command_handler chat conversation_id now db = (Bot.Pushed h, db') →
       Bot.push_command_handler chat conversation_id later db'
       = (Bot.AlreadyPushed h, db')).
Proof.
  split_and!.
  - intros c tbl. apply set_ipfs_hash_Return.
  - intros e tbl. apply set_ipfs_hash_Raise.
  - intros i c. apply push_refused.
  - intros h. apply push_Pushed.
  - intros Hnodup h db'. by apply push_twice.
Qed.

(** The theorem on chat 7 and its complete conversation 1: the first
    [/push] publishes the transcript, the second one answers with the same
    content id and changes nothing. *)
Lemma set_ipfs_hash_publish_once_witness :
  @Bot.push_command_handler toy_extern 7 1 50%Z unpublished_database
  = (Bot.Pushed "QmTranscript", published_database)
  ∧ @Bot.push_command_handler toy_extern 7 1 60%Z published_database
    = (Bot.AlreadyPushed "QmTranscript", published_database).
Proof.
  split; [reflexivity|].
  destruct (@set_ipfs_hash_publish_once toy_extern unpublished_database 7 1
              "QmOther" 50%Z 60%Z) as (_ & _ & _ & _ & Htwice).
  apply Htwice; [|reflexivity].
  apply NoDup_singleton.
Defined.

(** ** Reading the messages of a conversation *)

Global Instance newer_first_trans : Transitive Message.newer_first.
Proof. intros m1 m2 m3. unfold Message.newer_first. lia. Qed.

Global Instance newer_first_total : Total Message.newer_first.
Proof. intros m1 m2. unfold Message.newer_first. lia. Qed.

Lemma read_all_None_Permutation conversation tbl :
  Message.read_all conversation None tbl ≡ₚ messages_of conversation tbl.
Proof. unfold Message.read_all, messages_of. apply merge_sort_Permutation. Qed.

Lemma read_all_None_sorted conversation tbl :
  StronglySorted Message.newer_first (Message.read_all conversation None tbl).
Proof. unfold Message.read_all. apply StronglySorted_merge_sort; apply _. Qed.

(** C10: [read_all] treats the limits [0] and [None] alike, as no limit: it
    returns every message of the conversation, most recent first (for
    conversation 1 of [three_messages], both of its messages and not an
    empty list); a positive limit [n] keeps the [n] most recent of them.  So
    the read of [/summary], whose limit is the summary's message count,
    fetches the whole history when that count is 0. *)
Theorem read_all_zero_limit_is_no_limit (conversation : Z) (tbl : list Message.t) :
  Message.read_all conversation (Some 0%Z) tbl = Message.read_all conversation None tbl
  ∧ Message.read_all conversation None tbl ≡ₚ messages_of conversation tbl
  ∧ StronglySorted Message.newer_first (Message.read_all conversation None tbl)
  ∧ (∀ n, (0 < n)%Z →
       Message.read_all conversation (Some n) tbl
       = take (Z.to_nat n) (Message.read_all conversation None tbl))
  ∧ (∀ summary, Summary.message_count summary = 0%Z →
       Message.read_all conversation (Some (Summary.message_count summary)) tbl
       ≡ₚ messages_of conversation tbl)
  ∧ Message.id <$> Message.read_all 1 (Some 0%Z) three_messages = [12%Z; 11%Z].
Proof.
  split_and!.
  - done.
  - apply read_all_None_Permutation.
  - apply read_all_None_sorted.
  - intros n Hn. unfold Message.read_all.
    destruct (decide (n = 0%Z)); [lia|]. destruct (decide (n < 0)%Z); [lia|done].
  - intros summary ->. apply read_all_None_Permutation.
  - reflexivity.
Qed.

(** ** Prompt building *)

Section prompt.
Context `{Extern}.
Implicit Types (pm : PromptManager.t) (a : Agent.t) (messages : list Message.t).

Lemma fill_chat_log_spec pm (token_limit : Z) messages (used : nat)
    (lines : list string) used' lines' :
  Agent.fill_chat_log pm token_limit messages used lines = (used', lines') →
  ∃ n, n ≤ length messages
    ∧ lines' = lines ++ (PromptManager.chat_message pm <$> take n messages)
    ∧ used' = used + sum_list (line_tokens pm <$> take n messages)
    ∧ ((Z.of_nat used ≤ token_limit)%Z → (Z.of_nat used' ≤ token_limit)%Z)
    ∧ (n = length messages
       ∨ ∃ m, messages !! n = Some m
           ∧ (token_limit < Z.of_nat (used' + line_tokens pm m))%Z).
Proof.
  revert used lines.
  induction messages as [|message rest IH]; intros used lines; simpl.
  - intros [= <- <-]. exists 0. rewrite app_nil_r. simpl.
    split_and!; [lia|done|lia|done|by left].
  - fold (line_tokens pm message). case_decide as Hfit.
    + intros [= <- <-]. exists 0. rewrite app_nil_r. simpl.
      split_and!; [lia|done|lia|done|].
      right. by exists message.
    + intros Hrest. apply IH in Hrest as (n & Hn & -> & -> & Hle & Hstop).
      exists (S n). split_and!.
      * simpl. lia.
      * simpl. by rewrite <-app_assoc.
      * rewrite firstn_cons, fmap_cons. simpl. lia.
      * intros _. apply Hle. lia.
      * destruct Hstop as [->|(m & Hm & Hstop)]; [by left|].
        right. by exists m.
Qed.

Lemma prompt_response_cue pm (token_limit : Z) :
  PromptManager.prompt_response pm PromptManager.NoMessage "" token_limit
  = if decide (token_limit = -1)%Z then
      Return (response_cue pm, calculate_number_of_tokens (response_cue pm))
    else if decide (token_limit < Z.of_nat (calculate_number_of_tokens (response_cue pm)))%Z
    then Raise (PyException "prompt_response(): prompt exceeds token limit")
    else Return (response_cue pm, calculate_number_of_tokens (response_cue pm)).
Proof. reflexivity. Qed.

Lemma build_system_prompt_eq a prompt_type date :
  match prompt_type with
  | PromptType.summary =>
      PromptManager.summary_system_prompt (Agent.prompt_manager a) date
        (Agent.max_prompt_tokens a)
  | PromptType.proposal =>
      PromptManager.proposal_system_prompt (Agent.prompt_manager a) date
        (Agent.max_prompt_tokens a)
  end
  = PromptManager.build_system_prompt (Agent.prompt_manager a)
      (schema_of (Agent.prompt_manager a) prompt_type) date (Agent.max_prompt_tokens a).
Proof. by destruct prompt_type. Qed.

(** [build_prompt], case by case on the tokens of the system prompt and of
    the response cue. *)
Lemma build_prompt_cases a messages prompt_type date system_prompt :
  PromptManager.render_system_prompt (Agent.prompt_manager a)
    (schema_of (Agent.prompt_manager a) prompt_type) date = Return system_prompt →
  let system_tokens := calculate_number_of_tokens system_prompt in
  let cue_tokens := calculate_number_of_tokens (response_cue (Agent.prompt_manager a)) in
  Agent.build_prompt a messages prompt_type date
  = if decide (Agent.max_prompt_tokens a < Z.of_nat system_tokens)%Z then
      Raise (PyException "build_system_prompt(): system prompt exceeds token limit")
    else if decide (Agent.max_prompt_tokens a < Z.of_nat (system_tokens + cue_tokens))%Z
    then Raise (PyException "prompt_response(): prompt exceeds token limit")
    else
      let '(used_tokens, chat_log_lines) :=
        Agent.fill_chat_log (Agent.prompt_manager a) (Agent.max_prompt_tokens a)
          messages (system_tokens + cue_tokens) [] in
      Return (system_prompt +:+ Agent.join_reversed chat_log_lines
                +:+ response_cue (Agent.prompt_manager a), used_tokens).
Proof.
  intros Hrender system_tokens cue_tokens. unfold Agent.build_prompt.
  rewrite build_system_prompt_eq. unfold PromptManager.build_system_prompt.
  rewrite Hrender. fold system_tokens.
  destruct (decide (Agent.max_prompt_tokens a < Z.of_nat system_tokens)%Z) as [|Hsys];
    [done|].
  rewrite prompt_response_cue. fold cue_tokens.
  destruct (decide (_ = -1)%Z); [lia|].
  destruct (decide (Agent.max_prompt_tokens a - Z.of_nat system_tokens
                    < Z.of_nat cue_tokens)%Z);
    destruct (decide (Agent.max_prompt_tokens a
                      < Z.of_nat (system_tokens + cue_tokens))%Z); try lia; done.
Qed.
Lemma build_prompt_returns a messages prompt_type date system_prompt :
  PromptManager.render_system_prompt (Agent.prompt_manager a)
    (schema_of (Agent.prompt_manager a) prompt_type) date = Return system_prompt →
  (Z.of_nat (calculate_number_of_tokens system_prompt
             + calculate_number_of_tokens (response_cue (Agent.prompt_manager a)))
   ≤ Agent.max_prompt_tokens a)%Z →
  is_return (Agent.build_prompt a messages prompt_type date) = true.
Proof.
  intros Hrender Hfit. rewrite (build_prompt_cases _ _ _ _ _ Hrender). simpl.
  repeat case_decide; try lia.
  by destruct (Agent.fill_chat_log _ _ _ _ _).
Qed.

End prompt.



(** C9: with the system prompt rendered, [build_prompt] raises one of its
    two budget errors exactly when the tokens of the system prompt plus the
    tokens of the response cue exceed the token limit, and it raises nothing
    else; when they fit it returns a prompt for every history, and when not
    even the most recent message fits, that prompt is the system prompt
    followed by the response cue. *)
Theorem build_prompt_budget_error `{Extern} (a : Agent.t)
    (messages : list Message.t) (prompt_type : PromptType.t)
    (date system_prompt : string) :
  PromptManager.render_system_prompt (Agent.prompt_manager a)
    (schema_of (Agent.prompt_manager a) prompt_type) date = Return system_prompt →
  let basic_tokens :=
    calculate_number_of_tokens system_prompt
    + calculate_number_of_tokens (response_cue (Agent.prompt_manager a)) in
  ((∃ e, Agent.build_prompt a messages prompt_type date = Raise e)
   ↔ (Agent.max_prompt_tokens a < Z.of_nat basic_tokens)%Z)
  ∧ (∀ e, Agent.build_prompt a messages prompt_type date = Raise e →
          budget_exceeded e)
  ∧ ((Z.of_nat basic_tokens ≤ Agent.max_prompt_tokens a)%Z →
     ∃ prompt_text used_tokens,
       Agent.build_prompt a messages prompt_type date
       = Return (prompt_text, used_tokens))
  ∧ ((Z.of_nat basic_tokens ≤ Agent.max_prompt_tokens a)%Z →
     (∀ m, messages !! 0 = Some m →
           (Agent.max_prompt_tokens a
            < Z.of_nat (basic_tokens + line_tokens (Agent.prompt_manager a) m))%Z) →
     Agent.build_prompt a messages prompt_type date
     = Return (system_prompt +:+ response_cue (Agent.prompt_manager a), basic_tokens)).
Proof.
  intros Hrender basic_tokens.
  rewrite (build_prompt_cases _ _ _ _ _ Hrender). simpl. fold basic_tokens.
  destruct (Agent.fill_chat_log (Agent.prompt_manager a) (Agent.max_prompt_tokens a)
              messages basic_tokens []) as [used lines] eqn:Hfill.
  split_and!.
  - repeat case_decide; split; try lia; try (intros [e [=]]); eauto.
  - intros e. unfold budget_exceeded.
    repeat case_decide; intros [=]; auto.
  - intros Hfit. repeat case_decide; try lia. eauto.
  - intros Hfit Hfirst. repeat case_decide; try lia.
    destruct messages as [|m rest]; simpl in Hfill.
    + by injection Hfill as <- <-.
    + fold (line_tokens (Agent.prompt_manager a) m) in Hfill.
      specialize (Hfirst m eq_refl).
      destruct (decide (_ < _)%Z) in Hfill; [|lia].
      by injection Hfill as <- <-.
Qed.

(** The theorem for the agent with a budget of 16 tokens, whose system
    prompt and response cue take 9: a prompt is returned. *)
Lemma build_prompt_budget_error_witness :
  @PromptManager.render_system_prompt toy_extern toy_prompt_manager
    (schema_of toy_prompt_manager PromptType.summary) "Monday"
  = Return "<system> You are a scribe. Summarize the chat.</s> "
  ∧ ∃ prompt_text used_tokens,
      @Agent.build_prompt toy_extern toy_agent three_messages PromptType.summary
        "Monday" = Return (prompt_text, used_tokens).
Proof.
  split; [reflexivity|].
  destruct (@build_prompt_budget_error toy_extern toy_agent three_messages
              PromptType.summary "Monday" _ eq_refl) as (_ & _ & Hfit & _).
  apply Hfit. vm_compute. discriminate.
Defined.

(** ** Completion with retry *)

Section retry.
Context `{Extern} {B : Type} `{!Http.Backend B}.
Implicit Types (a : Agent.t) (session : Http.Session) (params : Http.Params)
  (slots : gmap Z (Http.Session * Z)) (b : B) (errs errors : list Exception).

Lemma post_n_S_r session url params n b :
  post_n session url params (S n) b
  = (Http.post session url params (post_n session url params n b)).2.
Proof. revert b. induction n as [|n IH]; intros b; [done|]. simpl. apply IH. Qed.

Lemma nth_outcome_S session url params n b :
  nth_outcome session url params (S n) b
  = nth_outcome session url params n (Http.post session url params b).2.
Proof. done. Qed.

Lemma failed_attempts_cons session url params b e errs :
  failed_attempts session url params b (e :: errs) →
  failure_error (Http.post session url params b).1 = Some e
  ∧ failed_attempts session url params (Http.post session url params b).2 errs.
Proof.
  intros Hfail. split.
  - apply (Hfail 0 e eq_refl).
  - intros i e' Hi. apply (Hfail (S i) e' Hi).
Qed.

Lemma attempt_failure a conversation_id session params slot slots b e :
  failure_error (Http.post session (Agent.model_api_url a) params b).1 = Some e →
  Agent.attempt a conversation_id session params slot slots b
  = (Raise e, slot, slots, (Http.post session (Agent.model_api_url a) params b).2).
Proof.
  unfold Agent.attempt, failure_error.
  destruct (Http.post session (Agent.model_api_url a) params b) as [[e0|status body] b'];
    simpl.
  - by intros [= ->].
  - case_decide; [done|]. by intros [= <-].
Qed.

Lemma attempt_success a conversation_id session params slot slots b
    response_data result :
  succeeds (Http.post session (Agent.model_api_url a) params b).1 response_data result →
  Agent.attempt a conversation_id session params slot slots b
  = (Return result, Agent.response_slot_id response_data slot,
     <[conversation_id := (session, Agent.response_slot_id response_data slot)]> slots,
     (Http.post session (Agent.model_api_url a) params b).2).
Proof.
  unfold Agent.attempt, succeeds.
  destruct (Http.post session (Agent.model_api_url a) params b) as [o b']; simpl.
  intros (-> & text & stopped & Htext & Hstopped & ->).
  case_decide; [|done]. by rewrite Hstopped, Htext.
Qed.

(** Failed requests are retried one by one, each error recorded in order. *)
Lemma complete_loop_failures a conversation_id session params slot slots errs :
  ∀ remaining errors b,
    failed_attempts session (Agent.model_api_url a) params b errs →
    Agent.complete_loop a conversation_id session params (length errs + remaining)
      slot errors slots b
    = Agent.complete_loop a conversation_id session params remaining slot
        (errors ++ errs) slots
        (post_n session (Agent.model_api_url a) params (length errs) b).
Proof.
  induction errs as [|e errs IH]; intros remaining errors b Hfail.
  - by rewrite app_nil_r.
  - apply failed_attempts_cons in Hfail as [He Hrest]. simpl.
    rewrite (attempt_failure _ _ _ _ _ _ _ _ He).
    rewrite (IH remaining (errors ++ [e]) _ Hrest).
    by rewrite <-app_assoc.
Qed.

Lemma with_slots_same a : Agent.with_slots (Agent.model_conversation_slots a) a = a.
Proof. by destruct a. Qed.
End retry.

(** C6: let the engine be supported and 1 ≤ k ≤ the maximum number of
    tries.  If the first k-1 requests fail (transport failure or a status
    other than 200) and request k succeeds, [complete] returns the result of
    request k and the backend has received exactly k requests.  If the
    maximum number of tries is k and all k requests fail, [complete] raises
    the aggregate error that carries the k errors of the requests, in
    order, and returns no text. *)
Theorem complete_retry `{Extern} {B : Type} `{!Http.Backend B} (a : Agent.t)
    (prompt_text : string) (conversation_id : Z) (w : Http.World B)
    (session : Http.Session) (slot : Z) (opened k : nat) (errs : list Exception) :
  Agent.model_engine a = "llamacpp" →
  Agent.lookup_slot a conversation_id w = (session, slot, opened) →
  1 ≤ k → (Z.of_nat k ≤ Agent.max_completion_tries a)%Z →
  failed_attempts session (Agent.model_api_url a)
    (Agent.llamacpp_params a prompt_text slot) (Http.backend w) errs →
  (∀ response_data result,
     length errs = k - 1 →
     succeeds
       (nth_outcome session (Agent.model_api_url a)
          (Agent.llamacpp_params a prompt_text slot) (k - 1) (Http.backend w))
       response_data result →
     ∃ a',
       Agent.complete a prompt_text conversation_id w
       = (Return result, a',
          Http.mk_world
            (post_n session (Agent.model_api_url a)
               (Agent.llamacpp_params a prompt_text slot) k (Http.backend w))
            opened))
  ∧ (length errs = k → Agent.max_completion_tries a = Z.of_nat k →
     Agent.complete a prompt_text conversation_id w
     = (Raise (CompleteFailed errs), a,
        Http.mk_world
          (post_n session (Agent.model_api_url a)
             (Agent.llamacpp_params a prompt_text slot) k (Http.backend w))
          opened)).
Proof.
  intros Hengine Hlookup Hk Hmax Hfail. split.
  - intros response_data result Hlen Hok.
    unfold Agent.complete. rewrite Hlookup.
    destruct (decide (Agent.model_engine a = "llamacpp")); [|done].
    replace (Z.to_nat (Agent.max_completion_tries a))
      with (length errs + S (Z.to_nat (Agent.max_completion_tries a) - k)) by lia.
    rewrite (complete_loop_failures _ _ _ _ _ _ _ _ _ _ Hfail). simpl.
    unfold nth_outcome in Hok. rewrite <-Hlen in Hok.
    rewrite (attempt_success _ _ _ _ _ _ _ _ _ Hok).
    eexists. do 2 f_equal.
    replace k with (S (length errs)) by lia. by rewrite post_n_S_r.
  - intros Hlen Hexact.
    unfold Agent.complete. rewrite Hlookup.
    destruct (decide (Agent.model_engine a = "llamacpp")); [|done].
    replace (Z.to_nat (Agent.max_completion_tries a)) with (length errs + 0) by lia.
    rewrite (complete_loop_failures _ _ _ _ _ _ _ _ _ _ Hfail). simpl.
    by rewrite with_slots_same, Hlen.
Qed.

(** The theorem on a scripted backend and an agent with at most 2 tries:
    status 503 and then a success gives the success after 2 requests; status
    503 and then a timeout gives the aggregate of the two errors. *)
Lemma complete_retry_witness :
  (∃ a',
     @Agent.complete toy_extern _ scripted toy_agent "hello" 5
       (Http.mk_world [Http.Response 503 None; more] 0)
     = (Return ("and more", 2, false), a', Http.mk_world [] 1))
  ∧ @Agent.complete toy_extern _ scripted toy_agent "hello" 5
      (Http.mk_world
         [Http.Response 503 None; Http.TransportError (ClientError "timeout")] 0)
    = (Raise (CompleteFailed
                [PyException "Agent::complete(): Non 200 status code: 503";
                 ClientError "timeout"]),
       toy_agent, Http.mk_world [] 1).
Proof.
  split.
  - destruct (@complete_retry toy_extern _ scripted toy_agent "hello" 5
                (Http.mk_world [Http.Response 503 None; more] 0) 0 (-1)%Z 1 2
                [PyException "Agent::complete(): Non 200 status code: 503"])
      as [Hreturn _].
    + reflexivity.
    + reflexivity.
    + lia.
    + simpl. lia.
    + intros [|i] e; simpl; [intros [= <-]; reflexivity|]. by destruct i.
    + apply (Hreturn
               (Http.mk_response None None (Some false) (Some false) (Some "and more"))
               ("and more", 2, false)); [reflexivity|].
      split; [reflexivity|]. by exists "and more", false.
  - destruct (@complete_retry toy_extern _ scripted toy_agent "hello" 5
                (Http.mk_world
                   [Http.Response 503 None;
                    Http.TransportError (ClientError "timeout")] 0) 0 (-1)%Z 1 2
                [PyException "Agent::complete(): Non 200 status code: 503";
                 ClientError "timeout"])
      as [_ Hraise].
    + reflexivity.
    + reflexivity.
    + lia.
    + simpl. lia.
    + intros [|[|i]] e; simpl; [intros [= <-]; reflexivity..|]. by destruct i.
    + apply Hraise; reflexivity.
Defined.

(** ** Slot affinity *)

Section slots.
Context `{Extern} {B : Type} `{!Http.Backend B}.
Implicit Types (a : Agent.t) (session : Http.Session) (params : Http.Params)
  (slots : gmap Z (Http.Session * Z)) (b : B).

Lemma slot_after_S_r session url params n slot b :
  slot_after session url params (S n) slot b
  = outcome_slot (nth_outcome session url params n b)
      (slot_after session url params n slot b).
Proof.
  revert slot b. induction n as [|n IH]; intros slot b; [done|].
  change (slot_after session url params (S (S n)) slot b)
    with (slot_after session url params (S n)
            (outcome_slot (Http.post session url params b).1 slot)
            (Http.post session url params b).2).
  by rewrite IH.
Qed.

Lemma outcome_slot_not_supplied o slot :
  no_slot_supplied o → outcome_slot o slot = slot.
Proof.
  intros Hnone. destruct o as [e|status [response_data|]]; try done. simpl.
  case_decide; [|done].
  destruct (Hnone status response_data eq_refl) as [Hid Hslot].
  unfold Agent.response_slot_id. by rewrite Hid, Hslot.
Qed.

Lemma slot_after_not_supplied session url params n slot b :
  (∀ i, i < n → no_slot_supplied (nth_outcome session url params i b)) →
  slot_after session url params n slot b = slot.
Proof.
  induction n as [|n IH]; intros Hnone; [done|].
  rewrite slot_after_S_r, outcome_slot_not_supplied by (apply Hnone; lia).
  apply IH. intros i Hi. apply Hnone. lia.
Qed.

(** What one [try] block does to the slot id and to the slot map. *)
Lemma attempt_slot a conversation_id session params slot slots b res slot' slots' b' :
  Agent.attempt a conversation_id session params slot slots b
  = (res, slot', slots', b') →
  b' = (Http.post session (Agent.model_api_url a) params b).2
  ∧ slot' = outcome_slot (Http.post session (Agent.model_api_url a) params b).1 slot
  ∧ (slots' = slots ∧ slot' = slot
     ∨ slots' = <[conversation_id := (session, slot')]> slots)
  ∧ (∀ result, res = Return result →
       slots' = <[conversation_id := (session, slot')]> slots
       ∧ ∃ response_data,
           succeeds (Http.post session (Agent.model_api_url a) params b).1
             response_data result).
Proof.
  unfold Agent.attempt, succeeds.
  destruct (Http.post session (Agent.model_api_url a) params b)
    as [[e|status [response_data|]] b1]; simpl.
  - intros [= <- <- <- <-]. split_and!; [done|done|by left|by intros result].
  - case_decide as Hstatus;
      [|intros [= <- <- <- <-]; split_and!; [done|done|by left|by intros result]].
    destruct (Agent.response_stopped response_data) as [stopped|e] eqn:Hstopped;
      [|intros [= <- <- <- <-]; split_and!; [done|done|by right|by intros result]].
    destruct (Http.content response_data) as [text|] eqn:Htext;
      intros [= <- <- <- <-]; (split_and!; [done|done|by right|]);
      intros result; [|done].
    intros [= <-]. split; [done|]. exists response_data. subst status.
    split; [done|]. by exists text, stopped.
  - case_decide; intros [= <- <- <- <-];
      (split_and!; [done|done|by left|by intros result]).
Qed.

(** A loop that returns did so on request [j], and the slot map it leaves
    holds the slot id in use after that request. *)
Lemma complete_loop_Return a conversation_id session params slots0 :
  ∀ remaining slot errors slots b result slots' b',
    slots = slots0 ∨ slots = <[conversation_id := (session, slot)]> slots0 →
    Agent.complete_loop a conversation_id session params remaining slot errors
      slots b = (Return result, slots', b') →
    ∃ j response_data,
      j < remaining
      ∧ b' = post_n session (Agent.model_api_url a) params (S j) b
      ∧ succeeds (nth_outcome session (Agent.model_api_url a) params j b)
          response_data result
      ∧ slots' = <[conversation_id :=
                     (session, slot_after session (Agent.model_api_url a) params
                                 (S j) slot b)]> slots0.
Proof.
  induction remaining as [|remaining IH];
    intros slot errors slots b result slots' b' Hslots; simpl; [done|].
  destruct (Agent.attempt a conversation_id session params slot slots b)
    as [[[res slot1] slots1] b1] eqn:Hattempt.
  apply attempt_slot in Hattempt as (-> & -> & Hrefresh & Hreturned).
  assert (slots1 = slots0
          ∨ slots1 = <[conversation_id :=
                         (session, outcome_slot
                            (Http.post session (Agent.model_api_url a) params b).1
                            slot)]> slots0) as Hslots1.
  { destruct Hrefresh as [[-> ->]| ->]; destruct Hslots as [->| ->]; auto;
      right; by rewrite insert_insert_eq. }
  destruct res as [result1|e].
  - intros [= <- <- <-].
    destruct (Hreturned result1 eq_refl) as (-> & response_data & Hok).
    exists 0, response_data. split_and!; [lia|done|done|].
    destruct Hslots as [->| ->]; [done|by rewrite insert_insert_eq].
  - intros Hloop.
    apply (IH _ _ _ _ _ _ _ Hslots1) in Hloop as (j & response_data & Hj & -> & Hok & ->).
    exists (S j), response_data. split_and!; [lia|done|done|done].
Qed.
End slots.

(** C8: when [complete] returns, on request [j] of the call, the entry of
    the conversation in the slot map is refreshed, whatever the stop flag of
    the result: it holds the session of the call and the slot id of the last
    response, read from [id_slot] when that key is present, else from
    [slot_id] when that one is present, else the slot id in use before that
    response.  When no response of the call carries a slot id, an entry
    stored by an earlier call is found unchanged. *)
Theorem complete_slot_affinity `{Extern} {B : Type} `{!Http.Backend B}
    (a a' : Agent.t) (prompt_text : string) (conversation_id : Z)
    (w w' : Http.World B) (session : Http.Session) (slot : Z) (opened : nat)
    (result : string * nat * bool) :
  Agent.lookup_slot a conversation_id w = (session, slot, opened) →
  Agent.complete a prompt_text conversation_id w = (Return result, a', w') →
  ∃ j response_data,
    j < Z.to_nat (Agent.max_completion_tries a)
    ∧ succeeds
        (nth_outcome session (Agent.model_api_url a)
           (Agent.llamacpp_params a prompt_text slot) j (Http.backend w))
        response_data result
    ∧ Agent.model_conversation_slots a'
      = <[conversation_id :=
            (session,
             Agent.response_slot_id response_data
               (slot_after session (Agent.model_api_url a)
                  (Agent.llamacpp_params a prompt_text slot) j slot (Http.backend w)))]>
          (Agent.model_conversation_slots a)
    ∧ (∀ s, Http.r_id_slot response_data = Some s →
            Agent.model_conversation_slots a' !! conversation_id = Some (session, s))
    ∧ (∀ s, Http.r_id_slot response_data = None →
            Http.r_slot_id response_data = Some s →
            Agent.model_conversation_slots a' !! conversation_id = Some (session, s))
    ∧ ((∀ i, i ≤ j →
             no_slot_supplied
               (nth_outcome session (Agent.model_api_url a)
                  (Agent.llamacpp_params a prompt_text slot) i (Http.backend w))) →
       Agent.model_conversation_slots a' !! conversation_id = Some (session, slot)
       ∧ ∀ stored, Agent.model_conversation_slots a !! conversation_id = Some stored →
                   Agent.model_conversation_slots a' !! conversation_id = Some stored).
Proof.
  intros Hlookup. unfold Agent.complete. rewrite Hlookup.
  destruct (decide (Agent.model_engine a = "llamacpp")); [|done].
  destruct (Agent.complete_loop _ _ _ _ _ _ _ _ _) as [[res slots'] b'] eqn:Hloop.
  intros [= -> <- <-].
  apply (complete_loop_Return _ _ _ _ (Agent.model_conversation_slots a)) in Hloop
    as (j & response_data & Hj & -> & Hok & ->); [|by left].
  exists j, response_data.
  pose proof Hok as [Hout _].
  rewrite slot_after_S_r, Hout.
  change (outcome_slot (Http.Response 200 (Some response_data)) ?s)
    with (Agent.response_slot_id response_data s).
  cbn [Agent.model_conversation_slots Agent.with_slots].
  split_and!; [done|by rewrite <-Hout|done|..].
  - intros s Hs. rewrite lookup_insert_eq. unfold Agent.response_slot_id.
    by rewrite Hs.
  - intros s Hnone Hs. rewrite lookup_insert_eq. unfold Agent.response_slot_id.
    by rewrite Hnone, Hs.
  - intros Hnot.
    assert (Agent.response_slot_id response_data
              (slot_after session (Agent.model_api_url a)
                 (Agent.llamacpp_params a prompt_text slot) j slot (Http.backend w))
            = slot) as ->.
    { rewrite slot_after_not_supplied by (intros i Hi; apply Hnot; lia).
      destruct (Hnot j (le_n j) 200%Z response_data Hout) as [Hid Hslot].
      unfold Agent.response_slot_id. by rewrite Hid, Hslot. }
    rewrite lookup_insert_eq. split; [done|].
    intros stored Hstored. unfold Agent.lookup_slot in Hlookup.
    rewrite Hstored in Hlookup. destruct stored as [session0 slot0].
    by injection Hlookup as -> -> _.
Qed.

(** The theorem for conversation 5, whose entry holds session 0 and slot 3,
    and a backend that answers once without a slot id and without a stop
    flag set: the entry is found unchanged after the call. *)
Lemma complete_slot_affinity_witness :
  Agent.model_conversation_slots toy_agent_with_slot !! 5%Z = Some (0, 3%Z)
  ∧ Agent.model_conversation_slots
      (@Agent.complete toy_extern _ scripted toy_agent_with_slot "hello" 5
         (Http.mk_world [more] 1)).1.2 !! 5%Z = Some (0, 3%Z).
Proof.
  split; [reflexivity|].
  set (run := @Agent.complete toy_extern _ scripted toy_agent_with_slot "hello" 5
                (Http.mk_world [more] 1)).
  destruct (@complete_slot_affinity toy_extern _ scripted toy_agent_with_slot
              run.1.2 "hello" 5%Z (Http.mk_world [more] 1) run.2 0 3%Z 1
              ("and more", 2, false))
    as (j & response_data & Hj & _ & _ & _ & _ & Hkeep);
    [reflexivity|reflexivity|].
  destruct Hkeep as [Hsame _]; [|exact Hsame].
  intros i Hi status response_data' Hout.
  destruct i as [|[|i]]; [| |simpl in Hj; lia].
  - by injection Hout as _ <-.
  - discriminate Hout.
Defined.

(** ** The response generator *)

Section generator.
Context `{Extern} {B : Type} `{!Http.Backend B}.
Implicit Types (a : Agent.t) (w : Http.World B) (g : Agent.Generator).

Lemma complete_continues a prompt_text conversation_id w :
  always_continues → can_request a →
  ∃ text slots' w',
    Agent.complete a prompt_text conversation_id w
    = (Return (text, calculate_number_of_tokens text, false),
       Agent.with_slots slots' a, w').
Proof.
  intros Hcont [Hengine Htries]. unfold Agent.complete.
  destruct (Agent.lookup_slot a conversation_id w) as [[session slot] opened].
  destruct (decide (Agent.model_engine a = "llamacpp")); [|done].
  destruct (Z.to_nat (Agent.max_completion_tries a)) as [|remaining] eqn:Hn; [lia|].
  destruct (Hcont session (Agent.model_api_url a)
              (Agent.llamacpp_params a prompt_text slot) (Http.backend w))
    as (response_data & text & Hout & Htext & Hstopped).
  simpl.
  erewrite attempt_success; [by eexists _, _, _|].
  split; [done|]. by exists text, false.
Qed.

Lemma next_round_continues max_tries conversation_id prompt_text tokens
    completion_try a w :
  always_continues → can_request a → (completion_try < max_tries)%Z →
  ∃ text slots' w',
    Agent.next_round max_tries conversation_id prompt_text tokens completion_try a w
    = (Agent.Yield text false,
       Agent.AtYield max_tries conversation_id prompt_text text false
         (tokens + calculate_number_of_tokens text) completion_try,
       Agent.with_slots slots' a, w').
Proof.
  intros Hcont Hreq Htry. unfold Agent.next_round.
  destruct (decide (completion_try < max_tries)%Z); [|done].
  destruct (complete_continues a prompt_text conversation_id w Hcont Hreq)
    as (text & slots' & w' & ->).
  by exists text, slots', w'.
Qed.

(** Suspended at a [yield] with [stopped] false and [completion_try] below
    the bound, the generator yields at every further pull. *)
Lemma drive_from_yield date pulls :
  always_continues →
  ∀ max_tries conversation_id prompt_text completion tokens completion_try a w,
    can_request a → (completion_try < max_tries)%Z →
    ∃ chunks a' w',
      Agent.drive date pulls
        (Agent.AtYield max_tries conversation_id prompt_text completion false
           tokens completion_try) a w
      = (chunks, Agent.StillRunning, a', w')
      ∧ length chunks = pulls ∧ Forall (λ chunk, chunk.2 = false) chunks.
Proof.
  intros Hcont. induction pulls as [|pulls IH];
    intros max_tries conversation_id prompt_text completion tokens
      completion_try a w Hreq Htry.
  - by exists [], a, w.
  - simpl.
    destruct (next_round_continues max_tries conversation_id
                (prompt_text +:+ completion) tokens completion_try a w
                Hcont Hreq Htry) as (text & slots' & w' & ->).
    destruct (IH max_tries conversation_id (prompt_text +:+ completion) text
                (tokens + calculate_number_of_tokens text) completion_try
                (Agent.with_slots slots' a) w' Hreq Htry)
      as (chunks & a'' & w'' & -> & Hlen & Hall).
    exists ((text, false) :: chunks), a'', w''.
    split_and!; [done|by simpl; rewrite Hlen|by constructor].
Qed.

(** A fresh generator whose prompt can be built yields at every pull. *)
Lemma drive_never_halts date pulls messages conversation_id prompt_type a w :
  always_continues → can_request a →
  is_return (Agent.build_prompt a messages prompt_type date) = true →
  ∃ chunks a' w',
    Agent.drive date pulls (Agent.yield_response messages conversation_id prompt_type)
      a w
    = (chunks, Agent.StillRunning, a', w')
    ∧ length chunks = pulls ∧ Forall (λ chunk, chunk.2 = false) chunks.
Proof.
  intros Hcont Hreq Hprompt. destruct pulls as [|pulls]; [by exists [], a, w|].
  simpl.
  destruct (Agent.build_prompt a messages prompt_type date)
    as [[prompt_text used]|]; [|done].
  pose proof Hreq as [_ Htries].
  destruct (next_round_continues (Agent.max_completion_tries a) conversation_id
              prompt_text 0 0%Z a w Hcont Hreq Htries) as (text & slots' & w' & ->).
  destruct (drive_from_yield date pulls Hcont (Agent.max_completion_tries a)
              conversation_id prompt_text text
              (0 + calculate_number_of_tokens text) 0%Z
              (Agent.with_slots slots' a) w' Hreq Htries)
    as (chunks & a'' & w'' & -> & Hlen & Hall).
  exists ((text, false) :: chunks), a'', w''.
  split_and!; [done|by simpl; rewrite Hlen|by constructor].
Qed.

(** After a chunk whose stop flag is set, the generator is exhausted. *)
Lemma anext_after_stopped date max_tries conversation_id prompt_text completion
    tokens completion_try a w :
  Agent.anext date
    (Agent.AtYield max_tries conversation_id prompt_text completion true tokens
       completion_try) a w
  = (Agent.StopIteration, Agent.Finished, a, w).
Proof. done. Qed.
End generator.

(** Three rounds that continue and a fourth that stops: four chunks, the
    fourth marked stopped, and no fifth request (the rest of the script is
    untouched). *)
Lemma stream_halts_when_stopped :
  ∃ a' w',
    @Agent.drive toy_extern _ scripted "Monday" 10
      (Agent.yield_response three_messages 1 PromptType.summary) toy_agent
      (Http.mk_world [more; more; more; finished; more] 0)
    = ([("and more", false); ("and more", false); ("and more", false);
        ("the end", true)],
       Agent.Exhausted, a', w')
    ∧ Http.backend w' = [more].
Proof. eexists _, _. split; [vm_compute; reflexivity|reflexivity]. Qed.

Lemma never_stops_always_continues : @always_continues unit never_stops.
Proof.
  intros session url params b. eexists _, "and more". split_and!; reflexivity.
Qed.

(** C2: the round loop of [yield_response] never assigns its round counter,
    so the bound on the rounds is never reached.  For the agent with at most
    2 tries and a backend that never reports the end of the generation, every
    pull yields one more chunk: after any number of pulls the stream has
    given that many chunks, none of them marked stopped, and has not
    ended. *)
Theorem yield_response_unbounded (pulls : nat) :
  Agent.max_completion_tries toy_agent = 2%Z
  ∧ ∃ chunks a' w',
      @Agent.drive toy_extern _ never_stops "Monday" pulls
        (Agent.yield_response three_messages 1 PromptType.summary) toy_agent
        (Http.mk_world tt 0)
      = (chunks, Agent.StillRunning, a', w')
      ∧ length chunks = pulls ∧ Forall (λ chunk, chunk.2 = false) chunks.
Proof.
  split; [reflexivity|].
  apply drive_never_halts.
  - apply never_stops_always_continues.
  - split; [reflexivity|reflexivity].
  - reflexivity.
Qed.

(** ** Marking a summary *)

Lemma str_is_no_name (new_state s : SummaryState.t) :
  SummaryState.str new_state ≠ SummaryState.name s.
Proof. by destruct new_state, s. Qed.

Lemma mark_found summary_id text new_state now tbl i summary :
  list_find (λ s, Summary.id s = summary_id) tbl = Some (i, summary) →
  Summary.mark summary_id text new_state now tbl
  = (Return tt,
     <[i := Summary.mk (Summary.id summary) (Summary.conversation_id summary)
              (Summary.message_count summary) (SummaryState.str new_state)
              (Some text) (Summary.created_at summary) now]> tbl).
Proof. intros Hfind. unfold Summary.mark. by rewrite Hfind. Qed.

Section summary_handler.
Context `{Extern} {B : Type} `{!Http.Backend B}.

(** With a backend that never reports the end of the generation, [/summary]
    never reaches the [finally] clause that marks the summary. *)
Lemma summary_never_marked pulls chat now later date db (a : Agent.t)
    (w : Http.World B) :
  always_continues → can_request a →
  (∀ messages,
     is_return (Agent.build_prompt a messages PromptType.summary date) = true) →
  is_Some (Chat.read chat (Bot.chats db)) →
  is_Some (Conversation.active chat (Bot.conversations db)) →
  Bot.summary_command_handler pulls chat now later date db a w = None.
Proof.
  intros Hcont Hreq Hprompt [chat_row Hchat] [[i conversation] Hactive].
  unfold Bot.summary_command_handler. rewrite Hchat, Hactive.
  destruct (Summary.create _ _ _ _) as [summary tbl].
  destruct (drive_never_halts date pulls
              (Message.read_all (Conversation.id conversation)
                 (Some (Summary.message_count summary)) (Bot.messages db))
              (Summary.conversation_id summary) PromptType.summary a w
              Hcont Hreq (Hprompt _)) as (chunks & a' & w' & -> & _).
  done.
Qed.
End summary_handler.

(** [/summary] with a backend that answers once and then is unavailable:
    the summary is created with the count of all three messages, the stream
    raises in its second round, and the summary is marked with the text of
    the first round. *)
Lemma summary_failure_keeps_partial_text :
  ∃ db' a' w',
    @Bot.summary_command_handler toy_extern _ scripted 5 7 200%Z 300%Z "Monday"
      toy_database toy_agent (Http.mk_world [more; unavailable; unavailable] 0)
    = Some (Bot.SummaryFailed, db', a', w')
    ∧ Bot.summaries db'
      = [Summary.mk 1 1 3 "SummaryState.failed" (Some "and more") 200%Z 300%Z].
Proof. eexists _, _, _. split; [vm_compute; reflexivity|reflexivity]. Qed.

(** C5: [Summary.mark] stores the given text, but in the state column it
    stores [str(state)], which is the name of no state: marking the pending
    summary 1 as complete leaves the string ["SummaryState.complete"] in
    the column.  And with a backend that never reports the end of the
    generation, [/summary] does not come to mark the summary at all. *)
Theorem mark_stores_str_of_state :
  Summary.mark 1 "The vote passed." SummaryState.complete 300%Z pending_summary
  = (Return tt,
     [Summary.mk 1 1 2 "SummaryState.complete" (Some "The vote passed.")
        100%Z 300%Z])
  ∧ (∀ new_state s, SummaryState.str new_state ≠ SummaryState.name s)
  ∧ (∀ pulls,
       @Bot.summary_command_handler toy_extern _ never_stops pulls 7 200%Z 300%Z
         "Monday" toy_database toy_agent (Http.mk_world tt 0) = None).
Proof.
  split_and!.
  - reflexivity.
  - apply str_is_no_name.
  - intros pulls. apply summary_never_marked.
    + apply never_stops_always_continues.
    + split; reflexivity.
    + intros messages.
      eapply (@build_prompt_returns toy_extern); [reflexivity|].
      vm_compute. discriminate.
    + by eexists.
    + by eexists.
Qed.

(** ** The conversations table: keys, history and chats *)

Section conversations_table.
Implicit Types (tbl : list Conversation.t) (c : Conversation.t).

Lemma next_id_above tbl c :
  c ∈ tbl → (Conversation.id c < Conversation.next_id tbl)%Z.
Proof.
  unfold Conversation.next_id. destruct tbl as [|c0 rest]; [by intros ?%elem_of_nil|].
  assert (∀ x, (x ≤ foldr (λ c acc, Z.max (Conversation.id c) acc) x rest)%Z
               ∧ ∀ c', c' ∈ rest →
                   (Conversation.id c'
                    ≤ foldr (λ c acc, Z.max (Conversation.id c) acc) x rest)%Z)
    as Hmax.
  { intros x. induction rest as [|c1 rest [IH1 IH2]]; simpl.
    - split; [lia|]. by intros c' ?%elem_of_nil.
    - split; [lia|]. intros c' [->|Hin]%elem_of_cons; [lia|].
      specialize (IH2 _ Hin). lia. }
  destruct (Hmax (Conversation.id c0)) as [Hfirst Hrest].
  intros [->|Hin]%elem_of_cons; [lia|]. specialize (Hrest _ Hin). lia.
Qed.

(** Replacing a row by one with the same value of [f] keeps the column. *)
Lemma fmap_insert_same {A} (f : Conversation.t → A) tbl i c c' :
  tbl !! i = Some c → f c' = f c → f <$> <[i := c']> tbl = f <$> tbl.
Proof.
  intros Hi Hf. rewrite list_fmap_insert, Hf.
  apply list_insert_id. by rewrite list_lookup_fmap, Hi.
Qed.

(** The three operations that change a row in place, as one update. *)
Lemma enter_update chat conversation_id now tbl :
  (Conversation.enter chat conversation_id now tbl).2 = tbl
  ∨ ∃ i c, tbl !! i = Some c ∧ Conversation.chat_id c = chat
      ∧ (Conversation.enter chat conversation_id now tbl).2
        = <[i := Conversation.set_state "active" now c]> tbl.
Proof.
  unfold Conversation.enter.
  destruct (Conversation.read chat conversation_id tbl) as [[i c]|] eqn:Hread;
    [|by left].
  apply read_Some in Hread as (Hi & _ & Hchat). right. by exists i, c.
Qed.

Lemma update_state_update chat s now tbl :
  (Conversation.update_state chat s now tbl).2 = tbl
  ∨ ∃ i c, tbl !! i = Some c ∧ Conversation.chat_id c = chat
      ∧ Conversation.state c = "active" ∧ s ≠ ConversationState.active
      ∧ (Conversation.update_state chat s now tbl).2
        = <[i := Conversation.set_state (ConversationState.name s) now c]> tbl.
Proof.
  unfold Conversation.update_state.
  destruct (decide (s = ConversationState.active)); [by left|].
  destruct (Conversation.active chat tbl) as [[i c]|] eqn:Hactive; [|by left].
  apply active_Some in Hactive as (Hi & Hchat & Hstate). right. by exists i, c.
Qed.

Lemma set_ipfs_hash_update conversation_id hash now tbl :
  (Conversation.set_ipfs_hash conversation_id hash now tbl).2 = tbl
  ∨ ∃ i c, tbl !! i = Some c
      ∧ (Conversation.set_ipfs_hash conversation_id hash now tbl).2
        = <[i := Conversation.with_ipfs_hash hash now c]> tbl.
Proof.
  unfold Conversation.set_ipfs_hash.
  destruct (list_find _ tbl) as [[i c]|] eqn:Hfind; [|by left].
  apply list_find_Some in Hfind as (Hi & _ & _). right. by exists i, c.
Qed.

Lemma create_append chat agenda now tbl :
  (Conversation.create chat agenda now tbl).2 = tbl
  ∨ (Conversation.create chat agenda now tbl).2
    = tbl ++ [Conversation.mk (Conversation.next_id tbl) chat (Some agenda)
                "active" None now now].
Proof.
  unfold Conversation.create.
  destruct (Conversation.active chat tbl); [by left|by right].
Qed.

Lemma conversation_keys_snoc tbl c :
  conversation_keys tbl → Conversation.id c = Conversation.next_id tbl →
  conversation_keys (tbl ++ [c]).
Proof.
  unfold conversation_keys. intros Hkeys Hid. rewrite fmap_app.
  apply NoDup_app. split_and!; [done| |apply NoDup_singleton].
  intros k Hk Hk'. apply list_elem_of_fmap in Hk as (c0 & -> & Hc0).
  apply list_elem_of_singleton in Hk'. apply next_id_above in Hc0.
  simpl in Hk'. lia.
Qed.

Lemma create_keys chat agenda now tbl :
  conversation_keys tbl →
  conversation_keys (Conversation.create chat agenda now tbl).2.
Proof.
  intros Hkeys. destruct (create_append chat agenda now tbl) as [-> | ->]; [done|].
  by apply conversation_keys_snoc.
Qed.

Lemma enter_keys chat conversation_id now tbl :
  conversation_keys tbl →
  conversation_keys (Conversation.enter chat conversation_id now tbl).2.
Proof.
  intros Hkeys. destruct (enter_update chat conversation_id now tbl)
    as [-> |(i & c & Hi & _ & ->)]; [done|].
  unfold conversation_keys. by erewrite fmap_insert_same.
Qed.

Lemma update_state_keys chat s now tbl :
  conversation_keys tbl →
  conversation_keys (Conversation.update_state chat s now tbl).2.
Proof.
  intros Hkeys. destruct (update_state_update chat s now tbl)
    as [-> |(i & c & Hi & _ & _ & _ & ->)]; [done|].
  unfold conversation_keys. by erewrite fmap_insert_same.
Qed.

Lemma set_ipfs_hash_keys conversation_id hash now tbl :
  conversation_keys tbl →
  conversation_keys (Conversation.set_ipfs_hash conversation_id hash now tbl).2.
Proof.
  intros Hkeys. destruct (set_ipfs_hash_update conversation_id hash now tbl)
    as [-> |(i & c & Hi & ->)]; [done|].
  unfold conversation_keys. by erewrite fmap_insert_same.
Qed.
End conversations_table.

(** X1: the primary keys of the conversations stay pairwise distinct under
    [create], [enter], [update_state] and [set_ipfs_hash], and the key of a
    created conversation is greater than every key in the table. *)
Theorem conversation_keys_preserved (tbl : list Conversation.t)
    (chat conversation_id : Z) (agenda hash : string) (s : ConversationState.t)
    (now : datetime) :
  conversation_keys tbl →
  conversation_keys (Conversation.create chat agenda now tbl).2
  ∧ conversation_keys (Conversation.enter chat conversation_id now tbl).2
  ∧ conversation_keys (Conversation.update_state chat s now tbl).2
  ∧ conversation_keys (Conversation.set_ipfs_hash conversation_id hash now tbl).2
  ∧ (∀ c c0, (Conversation.create chat agenda now tbl).1 = Some c → c0 ∈ tbl →
             (Conversation.id c0 < Conversation.id c)%Z).
Proof.
  intros Hkeys. split_and!.
  - by apply create_keys.
  - by apply enter_keys.
  - by apply update_state_keys.
  - by apply set_ipfs_hash_keys.
  - intros c c0. unfold Conversation.create.
    destruct (Conversation.active chat tbl); [done|].
    simpl. intros [= <-] Hc0. simpl. by apply next_id_above.
Qed.

Lemma two_conversations_keys : conversation_keys two_conversations.
Proof. apply (bool_decide_unpack _). by vm_compute. Qed.

Lemma conversation_keys_preserved_witness :
  conversation_keys two_conversations
  ∧ conversation_keys (Conversation.enter 7 2 100%Z two_conversations).2.
Proof.
  split; [apply two_conversations_keys|].
  by destruct (conversation_keys_preserved two_conversations 7 2 "budget" "Qm"
                 ConversationState.inactive 100%Z two_conversations_keys)
    as (_ & Henter & _).
Defined.

(** X2: no operation deletes a conversation or changes the id, the chat,
    the agenda or the creation time of one: [enter], [update_state] and
    [set_ipfs_hash] leave these columns of the table as they are, and
    [create] only appends a row. *)
Theorem conversation_history_kept (tbl : list Conversation.t)
    (chat conversation_id : Z) (agenda hash : string) (s : ConversationState.t)
    (now : datetime) :
  identity_of <$> (Conversation.enter chat conversation_id now tbl).2
  = identity_of <$> tbl
  ∧ identity_of <$> (Conversation.update_state chat s now tbl).2
    = identity_of <$> tbl
  ∧ identity_of <$> (Conversation.set_ipfs_hash conversation_id hash now tbl).2
    = identity_of <$> tbl
  ∧ tbl `prefix_of` (Conversation.create chat agenda now tbl).2.
Proof.
  split_and!.
  - destruct (enter_update chat conversation_id now tbl)
      as [-> |(i & c & Hi & _ & ->)]; [done|]. by erewrite fmap_insert_same.
  - destruct (update_state_update chat s now tbl)
      as [-> |(i & c & Hi & _ & _ & _ & ->)]; [done|]. by erewrite fmap_insert_same.
  - destruct (set_ipfs_hash_update conversation_id hash now tbl)
      as [-> |(i & c & Hi & ->)]; [done|]. by erewrite fmap_insert_same.
  - destruct (create_append chat agenda now tbl) as [-> | ->];
      [done|by apply prefix_app_r].
Qed.

Section conversation_round_trips.
Implicit Types (tbl : list Conversation.t) (c : Conversation.t).

Lemma create_Some chat agenda now tbl c :
  (Conversation.create chat agenda now tbl).1 = Some c →
  Conversation.active chat tbl = None
  ∧ c = Conversation.mk (Conversation.next_id tbl) chat (Some agenda) "active"
          None now now
  ∧ (Conversation.create chat agenda now tbl).2 = tbl ++ [c].
Proof.
  unfold Conversation.create.
  destruct (Conversation.active chat tbl); [done|]. simpl. by intros [= <-].
Qed.

Lemma update_state_no_active chat s now tbl :
  single_active tbl → s ≠ ConversationState.active →
  Conversation.active chat (Conversation.update_state chat s now tbl).2 = None.
Proof.
  intros Hinv Hs. unfold Conversation.update_state.
  destruct (decide (s = ConversationState.active)); [done|].
  destruct (Conversation.active chat tbl) as [[i c]|] eqn:Hactive; [|done].
  apply active_Some in Hactive as (Hi & Hchat & Hstate). simpl.
  apply list_find_None, Forall_lookup. intros j cj Hj [Hcj Haj].
  apply list_lookup_insert_Some in Hj as [(<- & <- & _)|[Hne Hj]].
  - simpl in Haj. by destruct s.
  - apply Hne. apply (Hinv i j c cj); auto. congruence.
Qed.
End conversation_round_trips.

(** X3: a conversation that [create] returns is stored as the active
    conversation of its chat, without content id and with the given agenda,
    and [active] and [read] both find it. *)
Theorem create_then_active (tbl : list Conversation.t) (chat : Z)
    (agenda : string) (now : datetime) (c : Conversation.t) :
  (Conversation.create chat agenda now tbl).1 = Some c →
  Conversation.active chat (Conversation.create chat agenda now tbl).2
  = Some (length tbl, c)
  ∧ Conversation.read chat (Conversation.id c)
      (Conversation.create chat agenda now tbl).2 = Some (length tbl, c)
  ∧ Conversation.agenda c = Some agenda
  ∧ Conversation.ipfs_hash c = None.
Proof.
  intros Hcreate.
  apply create_Some in Hcreate as (Hnone & Hc & ->).
  split_and!; [| |by subst c..].
  - unfold Conversation.active in *. rewrite list_find_app_r by done.
    simpl. rewrite decide_True by (by subst c). simpl. by do 2 f_equal.
  - unfold Conversation.read. rewrite list_find_app_r.
    + simpl. rewrite decide_True by (by subst c). simpl. by do 2 f_equal.
    + apply list_find_None, Forall_forall. intros c0 Hc0 [Hid _].
      apply next_id_above in Hc0. subst c. simpl in Hid. lia.
Qed.

Lemma create_then_active_witness :
  (Conversation.create 8 "treasury" 100%Z two_conversations).1
  = Some (Conversation.mk 3 8 (Some "treasury") "active" None 100%Z 100%Z)
  ∧ Conversation.active 8 (Conversation.create 8 "treasury" 100%Z two_conversations).2
    = Some (2, Conversation.mk 3 8 (Some "treasury") "active" None 100%Z 100%Z).
Proof.
  split; [reflexivity|].
  by destruct (create_then_active two_conversations 8 "treasury" 100%Z _ eq_refl)
    as [Hactive _].
Defined.

(** X4: with at most one active conversation per chat, [update_state] to
    [inactive], [complete] or [cancelled] leaves the chat without active
    conversation, so that a [create] that follows returns a conversation;
    with [active] as target it raises and changes nothing. *)
Theorem update_state_then_create (tbl : list Conversation.t) (chat : Z)
    (s : ConversationState.t) (agenda : string) (now later : datetime) :
  single_active tbl →
  (s ≠ ConversationState.active →
   Conversation.active chat (Conversation.update_state chat s now tbl).2 = None
   ∧ is_Some (Conversation.create chat agenda later
                (Conversation.update_state chat s now tbl).2).1)
  ∧ Conversation.update_state chat ConversationState.active now tbl
    = (Raise (PyException "Cannot set state to active. Call enter instead"), tbl).
Proof.
  intros Hinv. split; [|done]. intros Hs.
  pose proof (update_state_no_active chat s now tbl Hinv Hs) as Hnone.
  split; [done|]. unfold Conversation.create. by rewrite Hnone.
Qed.

Lemma update_state_then_create_witness :
  single_active two_conversations
  ∧ is_Some (Conversation.create 7 "next" 60%Z
               (Conversation.update_state 7 ConversationState.complete 50%Z
                  two_conversations).2).1.
Proof.
  split; [apply two_conversations_single_active|].
  destruct (update_state_then_create two_conversations 7 ConversationState.complete
              "next" 50%Z 60%Z two_conversations_single_active) as [Hthen _].
  by destruct Hthen.
Defined.

(** X5: leaving the active conversation of a chat with [update_state] to
    [inactive] and entering it again with [enter] gives back the table it
    started from, but for the update time of that conversation. *)
Theorem exit_then_enter (tbl : list Conversation.t) (chat : Z) (i : nat)
    (c : Conversation.t) (now later : datetime) :
  conversation_keys tbl →
  Conversation.active chat tbl = Some (i, c) →
  Conversation.enter chat (Conversation.id c) later
    (Conversation.update_state chat ConversationState.inactive now tbl).2
  = (Some (Conversation.set_state "active" later c),
     <[i := Conversation.set_state "active" later c]> tbl).
Proof.
  intros Hkeys Hactive. unfold Conversation.update_state.
  rewrite decide_False by done. rewrite Hactive. simpl.
  apply active_Some in Hactive as (Hi & Hchat & Hstate).
  unfold Conversation.enter.
  assert (Conversation.read chat (Conversation.id c)
            (<[i := Conversation.set_state "inactive" now c]> tbl)
          = Some (i, Conversation.set_state "inactive" now c)) as ->.
  { unfold Conversation.read. apply list_find_Some. split_and!.
    - apply list_lookup_insert_eq. by eapply lookup_lt_Some.
    - done.
    - done.
    - intros j cj Hj Hlt [Hid _].
      rewrite list_lookup_insert_ne in Hj by lia.
      assert (j = i); [|lia].
      by eapply (primary_key_lookup tbl j i cj c). }
  by rewrite list_insert_insert_eq.
Qed.

Lemma exit_then_enter_witness :
  Conversation.enter 7 1 60%Z
    (Conversation.update_state 7 ConversationState.inactive 50%Z
       two_conversations).2
  = (Some (Conversation.mk 1 7 (Some "budget") "active" None 10%Z 60%Z),
     [ Conversation.mk 1 7 (Some "budget") "active" None 10%Z 60%Z;
       Conversation.mk 2 7 (Some "roadmap") "inactive" None 20%Z 30%Z ]).
Proof.
  apply (exit_then_enter two_conversations 7 0
           (Conversation.mk 1 7 (Some "budget") "active" None 10%Z 10%Z)
           50%Z 60%Z); [|reflexivity].
  apply two_conversations_keys.
Defined.

(** ** Chats do not interfere *)

Lemma filter_insert_outside {A} (P : A → Prop) `{!∀ x, Decision (P x)}
    (l : list A) (i : nat) (x y : A) :
  l !! i = Some x → ¬ P x → ¬ P y → filter P (<[i := y]> l) = filter P l.
Proof.
  revert i. induction l as [|z l IH]; intros i Hi Hx Hy; [done|].
  destruct i as [|i]; simpl in *.
  - injection Hi as ->. by rewrite !filter_cons, !decide_False.
  - rewrite !filter_cons. by rewrite (IH i Hi Hx Hy).
Qed.

(** X6: [create], [enter] and [update_state] for one chat leave the
    conversations of every other chat, as [Conversation.read_all] lists
    them, unchanged. *)
Theorem other_chats_untouched (tbl : list Conversation.t)
    (chat other conversation_id : Z) (agenda : string) (s : ConversationState.t)
    (now : datetime) :
  other ≠ chat →
  Conversations.read_all other (Conversation.create chat agenda now tbl).2
  = Conversations.read_all other tbl
  ∧ Conversations.read_all other (Conversation.enter chat conversation_id now tbl).2
    = Conversations.read_all other tbl
  ∧ Conversations.read_all other (Conversation.update_state chat s now tbl).2
    = Conversations.read_all other tbl.
Proof.
  intros Hother. unfold Conversations.read_all. split_and!.
  - destruct (create_append chat agenda now tbl) as [-> | ->]; [done|].
    rewrite filter_app, filter_cons, decide_False by (simpl; congruence).
    by rewrite filter_nil, app_nil_r.
  - destruct (enter_update chat conversation_id now tbl)
      as [-> |(i & c & Hi & Hchat & ->)]; [done|].
    apply (filter_insert_outside _ _ _ c); simpl; congruence.
  - destruct (update_state_update chat s now tbl)
      as [-> |(i & c & Hi & Hchat & _ & _ & ->)]; [done|].
    apply (filter_insert_outside _ _ _ c); simpl; congruence.
Qed.

Lemma other_chats_untouched_witness :
  Conversations.read_all 7
    (Conversation.create 8 "treasury" 100%Z two_conversations).2
  = two_conversations.
Proof.
  by destruct (other_chats_untouched two_conversations 8 7 1 "treasury"
                 ConversationState.inactive 100%Z ltac:(done)) as [-> _].
Defined.

(** ** Setting up chats *)

Section chats.
Implicit Types (chats : list Chat.t).

Lemma unique_violation_is_conflict :
  DatabaseException.from_sqlalchemy_error "UNIQUE constraint failed: chats.id"
  = Some DatabaseError.conflict
  ∧ DatabaseException.from_sqlalchemy_error
      "UNIQUE constraint failed: chats.dao_address, chats.chain_id"
    = Some DatabaseError.conflict.
Proof. split; reflexivity. Qed.

Lemma chats_create_cases chat_id dao_address chain_id now chats :
  (Chats.create chat_id dao_address chain_id now chats = (Chats.Failed None, chats)
   ∧ ¬ (int64 chat_id ∧ int64 chain_id))
  ∨ (Chats.create chat_id dao_address chain_id now chats
     = (Chats.Failed (Some DatabaseError.conflict), chats)
     ∧ (int64 chat_id ∧ int64 chain_id)
     ∧ ∃ c, c ∈ chats
         ∧ (Chat.id c = chat_id
            ∨ Chat.dao_address c = dao_address ∧ Chat.chain_id c = chain_id))
  ∨ (Chats.create chat_id dao_address chain_id now chats
     = (Chats.Ok (Chat.mk chat_id dao_address chain_id now now),
        chats ++ [Chat.mk chat_id dao_address chain_id now now])
     ∧ (int64 chat_id ∧ int64 chain_id)
     ∧ (∀ c, c ∈ chats → Chat.id c ≠ chat_id)
     ∧ (∀ c, c ∈ chats →
             ¬ (Chat.dao_address c = dao_address ∧ Chat.chain_id c = chain_id))).
Proof.
  unfold Chats.create.
  destruct (decide (¬ (int64 chat_id ∧ int64 chain_id))) as [Hrange|Hrange].
  { left. split; [reflexivity|done]. }
  apply dec_stable in Hrange. destruct Hrange as [Hchat Hchain]. right.
  destruct (decide (Exists _ chats)) as [Hid|Hid].
  { left. split_and!; [done..|].
    apply Exists_exists in Hid as (c & Hc & Hid). eauto. }
  destruct (decide (Exists _ chats)) as [Hdao|Hdao].
  { left. split_and!; [done..|].
    apply Exists_exists in Hdao as (c & Hc & Hdao). eauto. }
  right. split_and!; [done..| |];
    intros c Hc Hx; [apply Hid|apply Hdao]; apply Exists_exists; eauto.
Qed.

Lemma chats_create_keys chat_id dao_address chain_id now chats :
  chat_keys chats →
  chat_keys (Chats.create chat_id dao_address chain_id now chats).2.
Proof.
  intros [Hids Hdaos].
  destruct (chats_create_cases chat_id dao_address chain_id now chats)
    as [[-> _]|[[-> _]|(-> & _ & Hid & Hdao)]]; [done..|].
  unfold chat_keys. simpl. rewrite !fmap_app. split.
  - apply NoDup_app. split_and!; [done| |apply NoDup_singleton].
    intros k (c & -> & Hc)%list_elem_of_fmap Hk%list_elem_of_singleton.
    by apply (Hid c).
  - apply NoDup_app. split_and!; [done| |apply NoDup_singleton].
    intros k (c & -> & Hc)%list_elem_of_fmap Hk%list_elem_of_singleton.
    apply (Hdao c Hc). simpl in Hk. by injection Hk as -> ->.
Qed.
End chats.

(** X7: [Chat.create] keeps the chat ids pairwise distinct and every DAO,
    address and chain id together, bound to at most one chat.  It returns
    the chat exactly when the chat id and the chain id fit 64 bits and no
    stored chat has the same id or the same DAO; [Chat.read] and
    [Chat.read_by_dao] then find it.  Otherwise the table is unchanged: for
    an integer out of range the exception is passed on as it is, and else
    it is a database exception of kind conflict. *)
Theorem chat_create_unique (chats : list Chat.t) (chat_id chain_id : Z)
    (dao_address : string) (now : datetime) :
  chat_keys chats →
  chat_keys (Chats.create chat_id dao_address chain_id now chats).2
  ∧ (∀ chat, (Chats.create chat_id dao_address chain_id now chats).1 = Chats.Ok chat →
       Chat.read chat_id (Chats.create chat_id dao_address chain_id now chats).2
       = Some (length chats, chat)
       ∧ Chats.read_by_dao dao_address chain_id
           (Chats.create chat_id dao_address chain_id now chats).2
         = Some (length chats, chat))
  ∧ ((∃ chat, (Chats.create chat_id dao_address chain_id now chats).1 = Chats.Ok chat)
     ↔ int64 chat_id ∧ int64 chain_id
       ∧ ∀ c, c ∈ chats →
           Chat.id c ≠ chat_id
           ∧ ¬ (Chat.dao_address c = dao_address ∧ Chat.chain_id c = chain_id))
  ∧ (∀ e, (Chats.create chat_id dao_address chain_id now chats).1 = Chats.Failed e →
       (Chats.create chat_id dao_address chain_id now chats).2 = chats
       ∧ (e = None ∧ ¬ (int64 chat_id ∧ int64 chain_id)
          ∨ e = Some DatabaseError.conflict
            ∧ int64 chat_id ∧ int64 chain_id
            ∧ ∃ c, c ∈ chats
                ∧ (Chat.id c = chat_id
                   ∨ Chat.dao_address c = dao_address
                     ∧ Chat.chain_id c = chain_id))).
Proof.
  intros Hkeys. split; [by apply chats_create_keys|].
  destruct (chats_create_cases chat_id dao_address chain_id now chats)
    as [[-> Hrange]|[(-> & Hrange & c & Hc & Hsame)|(-> & Hrange & Hid & Hdao)]];
    simpl.
  - split_and!; [done| |].
    + split; [by intros [chat ?]|]. intros (? & ? & _). by destruct Hrange.
    + intros e [= <-]. split; [done|]. by left.
  - split_and!; [done| |].
    + split; [by intros [chat ?]|]. intros (_ & _ & Hall).
      destruct (Hall c Hc) as [Hid Hdao]. by destruct Hsame.
    + intros e [= <-]. split; [done|]. right. destruct Hrange. eauto 10.
  - split_and!; [| |done].
    + intros chat [= <-]. split.
      * unfold Chat.read. rewrite list_find_app_r.
        -- simpl. rewrite decide_True by done. simpl. by do 2 f_equal.
        -- apply list_find_None, Forall_forall. intros c Hc. by apply Hid.
      * unfold Chats.read_by_dao. rewrite list_find_app_r.
        -- simpl. rewrite decide_True by done. simpl. by do 2 f_equal.
        -- apply list_find_None, Forall_forall. intros c Hc. by apply Hdao.
    + split; [|by eauto]. intros _. destruct Hrange. split_and!; [done..|].
      intros c Hc. split; [by apply Hid|by apply Hdao].
Qed.

(** The theorem at the table with chat 7 of DAO [0xda0] on chain 1: chat 8
    cannot take the same DAO, and a chain id of [2 ^ 63] is passed on as the
    driver's own exception. *)
Lemma chat_create_unique_witness :
  chat_keys [Chat.mk 7 "0xda0" 1 5%Z 5%Z]
  ∧ chat_keys (Chats.create 8 "0xda0" 1 9%Z [Chat.mk 7 "0xda0" 1 5%Z 5%Z]).2
  ∧ (Chats.create 8 "0xda0" 1 9%Z [Chat.mk 7 "0xda0" 1 5%Z 5%Z]).1
    = Chats.Failed (Some DatabaseError.conflict)
  ∧ (Chats.create 8 "0xda1" (2 ^ 63) 9%Z [Chat.mk 7 "0xda0" 1 5%Z 5%Z]).1
    = Chats.Failed None.
Proof.
  assert (chat_keys [Chat.mk 7 "0xda0" 1 5%Z 5%Z]) as Hkeys.
  { split; apply NoDup_singleton. }
  split; [done|].
  destruct (chat_create_unique [Chat.mk 7 "0xda0" 1 5%Z 5%Z] 8 1 "0xda0" 9%Z Hkeys)
    as (Hkept & _).
  split; [done|]. split; reflexivity.
Defined.

(** ** Any sequence of commands *)

Section commands.
Context `{Extern}.
Implicit Types (db : Bot.Database) (tbl : list Conversation.t).

Lemma history_extends_refl tbl : history_extends tbl tbl.
Proof. intros i c Hi. by exists c. Qed.

Lemma history_extends_trans tbl1 tbl2 tbl3 :
  history_extends tbl1 tbl2 → history_extends tbl2 tbl3 →
  history_extends tbl1 tbl3.
Proof.
  intros H12 H23 i c Hi.
  destruct (H12 i c Hi) as (c2 & Hi2 & Hid2 & Hh2).
  destruct (H23 i c2 Hi2) as (c3 & Hi3 & Hid3 & Hh3).
  exists c3. split_and!; [done|congruence|auto].
Qed.

Lemma history_extends_insert tbl i c c' :
  tbl !! i = Some c → identity_of c' = identity_of c →
  (∀ h, Conversation.ipfs_hash c = Some h → Conversation.ipfs_hash c' = Some h) →
  history_extends tbl (<[i := c']> tbl).
Proof.
  intros Hi Hid Hhash j cj Hj. destruct (decide (j = i)) as [->|Hne].
  - assert (cj = c) as -> by congruence.
    exists c'. split; [|done].
    apply list_lookup_insert_eq. by apply (lookup_lt_Some _ _ c).
  - exists cj. by rewrite list_lookup_insert_ne.
Qed.

Lemma history_extends_app tbl rows : history_extends tbl (tbl ++ rows).
Proof. intros i c Hi. exists c. split; [by apply lookup_app_l_Some|done]. Qed.

Lemma create_extends chat agenda now tbl :
  history_extends tbl (Conversation.create chat agenda now tbl).2.
Proof.
  destruct (create_append chat agenda now tbl) as [-> | ->];
    [apply history_extends_refl|apply history_extends_app].
Qed.

Lemma enter_extends chat conversation_id now tbl :
  history_extends tbl (Conversation.enter chat conversation_id now tbl).2.
Proof.
  destruct (enter_update chat conversation_id now tbl)
    as [-> |(i & c & Hi & _ & ->)]; [apply history_extends_refl|].
  by apply (history_extends_insert tbl i c).
Qed.

Lemma update_state_extends chat s now tbl :
  history_extends tbl (Conversation.update_state chat s now tbl).2.
Proof.
  destruct (update_state_update chat s now tbl)
    as [-> |(i & c & Hi & _ & _ & _ & ->)]; [apply history_extends_refl|].
  by apply (history_extends_insert tbl i c).
Qed.

(** [/push] writes a content id only where there was none. *)
Lemma push_extends chat conversation_id now db :
  conversation_keys (Bot.conversations db) →
  history_extends (Bot.conversations db)
    (Bot.conversations (Bot.push_command_handler chat conversation_id now db).2).
Proof.
  intros Hkeys. unfold Bot.push_command_handler.
  destruct (Chat.read chat (Bot.chats db)); [|apply history_extends_refl].
  destruct (Conversation.read chat conversation_id (Bot.conversations db))
    as [[i c]|] eqn:Hread; [|apply history_extends_refl].
  case_decide; [apply history_extends_refl|].
  destruct (Conversation.ipfs_hash c) eqn:Hhash; [apply history_extends_refl|].
  destruct (ipfs_add_str _ _) as [h|]; [|apply history_extends_refl].
  destruct (Conversation.set_ipfs_hash _ _ _ _) as [[c1|] tbl1] eqn:Hset;
    [|apply history_extends_refl].
  simpl.
  apply set_ipfs_hash_Return in Hset as (k & c0 & Hk & Hid & _ & -> & ->).
  apply read_Some in Hread as (Hi & _ & _).
  assert (k = i) as -> by (by eapply primary_key_lookup).
  assert (c0 = c) as -> by congruence.
  apply (history_extends_insert _ i c); [done|done|].
  intros h'. by rewrite Hhash.
Qed.

Lemma state_extends s chat now db :
  history_extends (Bot.conversations db)
    (Bot.conversations (Handlers.state_command_handler s chat now db).2).
Proof.
  unfold Handlers.state_command_handler.
  destruct (Chat.read _ _); [|apply history_extends_refl].
  pose proof (update_state_extends chat s now (Bot.conversations db)) as Hext.
  destruct (Conversation.update_state _ _ _ _) as [[[c|]|e] tbl];
    [done|apply history_extends_refl..].
Qed.

Lemma state_well_formed s chat now db :
  well_formed db →
  well_formed (Handlers.state_command_handler s chat now db).2.
Proof.
  intros (Hchats & Hkeys & Hinv). unfold Handlers.state_command_handler.
  destruct (Chat.read _ _); [|done].
  pose proof (update_state_keys chat s now _ Hkeys) as Hkeys'.
  pose proof (update_state_single_active chat s now _ Hinv) as Hinv'.
  by destruct (Conversation.update_state _ _ _ _) as [[[c|]|e] tbl].
Qed.

Lemma handle_extends command now db :
  conversation_keys (Bot.conversations db) →
  history_extends (Bot.conversations db)
    (Bot.conversations (Handlers.handle command now db)).
Proof.
  intros Hkeys. destruct command; simpl.
  - unfold Handlers.start_command_handler.
    destruct (Chats.create _ _ _ _ _) as [[chat|[[]|]] tbl];
      apply history_extends_refl.
  - unfold Handlers.new_command_handler.
    destruct (Handlers.parse_agenda text); [|apply history_extends_refl].
    destruct (Chat.read _ _); [|apply history_extends_refl].
    pose proof (create_extends chat_id s now (Bot.conversations db)) as Hext.
    destruct (Conversation.create _ _ _ _) as [[c|] tbl];
      [done|apply history_extends_refl].
  - unfold Bot.enter_command_handler.
    destruct (Chat.read _ _); [|apply history_extends_refl].
    destruct (Conversation.active _ _); [apply history_extends_refl|].
    pose proof (enter_extends chat_id conversation_id now (Bot.conversations db))
      as Hext.
    destruct (Conversation.enter _ _ _ _) as [[c|] tbl];
      [|apply history_extends_refl].
    destruct (Conversation.agenda c); [done|apply history_extends_refl].
  - apply state_extends.
  - apply state_extends.
  - apply state_extends.
  - by apply push_extends.
Qed.

Lemma handle_well_formed command now db :
  well_formed db → well_formed (Handlers.handle command now db).
Proof.
  intros (Hchats & Hkeys & Hinv). destruct command; simpl.
  - unfold Handlers.start_command_handler.
    pose proof (chats_create_keys chat_id dao_address chain_id now (Bot.chats db)
                  Hchats) as Hchats'.
    by destruct (Chats.create _ _ _ _ _) as [[chat|[[]|]] tbl].
  - unfold Handlers.new_command_handler.
    destruct (Handlers.parse_agenda text) as [agenda|]; [|done].
    destruct (Chat.read _ _); [|done].
    pose proof (create_keys chat_id agenda now _ Hkeys) as Hkeys'.
    pose proof (create_single_active chat_id agenda now _ Hinv) as Hinv'.
    by destruct (Conversation.create _ _ _ _) as [[c|] tbl].
  - split; [|split].
    + unfold Bot.enter_command_handler.
      destruct (Chat.read _ _); [|done].
      destruct (Conversation.active _ _); [done|].
      destruct (Conversation.enter _ _ _ _) as [[c|] tbl]; [|done].
      by destruct (Conversation.agenda c).
    + unfold Bot.enter_command_handler.
      destruct (Chat.read _ _); [|done].
      destruct (Conversation.active _ _); [done|].
      pose proof (enter_keys chat_id conversation_id now _ Hkeys) as Hkeys'.
      destruct (Conversation.enter _ _ _ _) as [[c|] tbl]; [|done].
      by destruct (Conversation.agenda c).
    + by apply enter_command_handler_single_active.
  - by apply state_well_formed.
  - by apply state_well_formed.
  - by apply state_well_formed.
  - unfold Bot.push_command_handler.
    destruct (Chat.read _ _); [|done].
    destruct (Conversation.read _ _ _) as [[i c]|]; [|done].
    case_decide; [done|].
    destruct (Conversation.ipfs_hash c); [done|].
    destruct (ipfs_add_str _ _) as [h|]; [|done].
    pose proof (set_ipfs_hash_keys (Conversation.id c) h now _ Hkeys) as Hkeys'.
    pose proof (set_ipfs_hash_single_active (Conversation.id c) h now _ Hinv)
      as Hinv'.
    by destruct (Conversation.set_ipfs_hash _ _ _ _) as [[c1|] tbl1].
Qed.

Lemma run_well_formed commands db :
  well_formed db → well_formed (Handlers.run commands db).
Proof.
  revert db. induction commands as [|[command now] commands IH]; intros db Hdb;
    [done|].
  apply IH. by apply handle_well_formed.
Qed.

Lemma run_extends commands db :
  well_formed db →
  history_extends (Bot.conversations db)
    (Bot.conversations (Handlers.run commands db)).
Proof.
  revert db. induction commands as [|[command now] commands IH]; intros db Hdb.
  - apply history_extends_refl.
  - eapply history_extends_trans.
    + apply (handle_extends command now db). apply Hdb.
    + apply IH. by apply handle_well_formed.
Qed.
End commands.

Lemma empty_database_well_formed : well_formed empty_database.
Proof.
  split_and!; [split; apply NoDup_nil_2|apply NoDup_nil_2|].
  intros i j ci cj Hi. by destruct i.
Qed.

(** X8: every command keeps the database well formed: chat ids and
    conversation ids pairwise distinct, every DAO bound to at most one chat,
    and at most one active conversation per chat.  So this holds after any
    sequence of [/start], [/new], [/enter], [/exit], [/cancel], [/complete]
    and [/push] commands from a well-formed database, the empty one in
    particular. *)
Theorem commands_keep_well_formed `{Extern}
    (commands : list (Handlers.Command * datetime)) (db : Bot.Database) :
  well_formed db → well_formed (Handlers.run commands db).
Proof. apply run_well_formed. Qed.

Lemma commands_keep_well_formed_witness :
  well_formed empty_database
  ∧ well_formed
      (@Handlers.run toy_extern
         [ (Handlers.Start 7 "0xda0" 1, 1%Z); (Handlers.New 7 "/new budget", 2%Z);
           (Handlers.New 7 "/new again", 3%Z); (Handlers.Exit 7, 4%Z);
           (Handlers.New 7 "/new roadmap", 5%Z); (Handlers.Enter 7 1, 6%Z) ]
         empty_database).
Proof.
  split; [apply empty_database_well_formed|].
  apply (@commands_keep_well_formed toy_extern).
  apply empty_database_well_formed.
Defined.

(** X9: along any sequence of commands from a well-formed database, no
    conversation is deleted or moved, none changes its id, chat, agenda or
    creation time, and a content id, once set, stays the same: a published
    conversation is never published again under another id. *)
Theorem commands_keep_history `{Extern}
    (commands : list (Handlers.Command * datetime)) (db : Bot.Database) :
  well_formed db →
  history_extends (Bot.conversations db)
    (Bot.conversations (Handlers.run commands db)).
Proof. apply run_extends. Qed.

Lemma commands_keep_history_witness :
  well_formed published_database
  ∧ history_extends (Bot.conversations published_database)
      (Bot.conversations
         (@Handlers.run toy_extern
            [ (Handlers.Enter 7 1, 60%Z); (Handlers.Complete 7, 70%Z);
              (Handlers.Push 7 1, 80%Z) ]
            published_database)).
Proof.
  assert (well_formed published_database) as Hdb.
  { split_and!; [split; apply NoDup_singleton|apply NoDup_singleton|].
    intros [|i] [|j] ci cj Hi Hj; simplify_eq/=; done. }
  split; [done|]. by apply (@commands_keep_history toy_extern).
Defined.

(** ** Published transcripts *)

Section transcripts.
Context `{Extern}.
Implicit Types (db : Bot.Database).

(** What a successful [/push] did to the table. *)
Lemma push_Pushed_row chat conversation_id now db h db' :
  conversation_keys (Bot.conversations db) →
  Bot.push_command_handler chat conversation_id now db = (Bot.Pushed h, db') →
  ∃ i c,
    Bot.conversations db !! i = Some c
    ∧ Conversation.id c = conversation_id ∧ Conversation.chat_id c = chat
    ∧ Conversation.state c = "complete" ∧ Conversation.ipfs_hash c = None
    ∧ db' = Bot.with_conversations
              (<[i := Conversation.with_ipfs_hash h now c]> (Bot.conversations db)) db.
Proof.
  intros Hkeys. unfold Bot.push_command_handler.
  destruct (Chat.read chat (Bot.chats db)); [|done].
  destruct (Conversation.read chat conversation_id (Bot.conversations db))
    as [[i c]|] eqn:Hread; [|done].
  case_decide as Hstate; [done|].
  destruct (Conversation.ipfs_hash c) eqn:Hhash; [done|].
  destruct (ipfs_add_str _ _) as [h0|]; [|done].
  destruct (Conversation.set_ipfs_hash _ _ _ _) as [[c1|] tbl1] eqn:Hset; [|done].
  intros [= <- <-].
  apply set_ipfs_hash_Return in Hset as (k & c0 & Hk & Hid & _ & -> & ->).
  apply read_Some in Hread as (Hi & Hcid & Hchat).
  assert (k = i) as -> by (by eapply primary_key_lookup).
  assert (c0 = c) as -> by congruence.
  by exists i, c.
Qed.

Lemma read_by_dao_of_read chat i chat_row db :
  chat_keys (Bot.chats db) →
  Chat.read chat (Bot.chats db) = Some (i, chat_row) →
  Chats.read_by_dao (Chat.dao_address chat_row) (Chat.chain_id chat_row)
    (Bot.chats db) = Some (i, chat_row).
Proof.
  intros [_ Hdaos] Hread. unfold Chat.read in Hread.
  apply list_find_Some in Hread as (Hi & _ & _).
  unfold Chats.read_by_dao. apply list_find_Some. split_and!; [done..|].
  intros j c Hj Hlt [Hdao Hchain].
  assert (j = i); [|lia].
  eapply (NoDup_lookup _ j i (Chat.dao_address chat_row, Chat.chain_id chat_row)
            Hdaos); rewrite list_lookup_fmap.
  - rewrite Hj. simpl. by rewrite Hdao, Hchain.
  - by rewrite Hi.
Qed.
End transcripts.

(** X10: after a [/push] that answers with a content id, in a well-formed
    database, the conversation is among the pushed conversations of its
    chat with that content id, and a body that [GET /api/transcripts]
    answers for the DAO of the chat lists it with that content id. *)
Theorem push_then_transcripts `{Extern} (db db' : Bot.Database)
    (chat conversation_id : Z) (now : datetime) (h : string) :
  well_formed db →
  Bot.push_command_handler chat conversation_id now db = (Bot.Pushed h, db') →
  (∃ c, c ∈ Conversation.read_pushed chat (Bot.conversations db')
        ∧ Conversation.id c = conversation_id
        ∧ Conversation.ipfs_hash c = Some h)
  ∧ ∀ i chat_row transcripts,
      Chat.read chat (Bot.chats db) = Some (i, chat_row) →
      Server.get_transcripts (Chat.dao_address chat_row) (Chat.chain_id chat_row) db'
      = Server.Body transcripts →
      ∃ t, t ∈ transcripts ∧ Server.id t = conversation_id
           ∧ Server.ipfs_hash t = h.
Proof.
  intros (Hchats & Hkeys & _) Hpush.
  apply push_Pushed_row in Hpush
    as (i & c & Hi & Hid & Hchat & Hstate & Hhash & ->); [|done].
  assert (Conversation.with_ipfs_hash h now c
          ∈ Conversation.read_pushed chat
              (<[i := Conversation.with_ipfs_hash h now c]> (Bot.conversations db)))
    as Hlisted.
  { unfold Conversation.read_pushed. apply list_elem_of_filter. split; [done|].
    apply list_elem_of_lookup. exists i.
    apply list_lookup_insert_eq. by apply (lookup_lt_Some _ _ c). }
  split; [by exists (Conversation.with_ipfs_hash h now c)|].
  intros k chat_row transcripts Hread. unfold Server.get_transcripts. simpl.
  rewrite (read_by_dao_of_read chat k chat_row db Hchats Hread).
  unfold Chat.read in Hread. apply list_find_Some in Hread as (_ & -> & _).
  destruct (mapM Server.transcript _) as [listed|] eqn:Hmap; [|done].
  intros [= <-]. apply mapM_Some in Hmap.
  apply list_elem_of_lookup in Hlisted as [j Hj].
  destruct (Forall2_lookup_l _ _ _ _ _ Hmap Hj) as (t & Ht & Htranscript).
  exists t. split; [by eapply list_elem_of_lookup_2|].
  unfold Server.transcript in Htranscript. simpl in Htranscript.
  destruct (Conversation.agenda c); [|done]. by injection Htranscript as <-.
Qed.

Lemma push_then_transcripts_witness :
  well_formed unpublished_database
  ∧ ∃ t, t ∈ [Server.mk_transcript 1 "budget" "QmTranscript"]
         ∧ Server.id t = 1%Z ∧ Server.ipfs_hash t = "QmTranscript".
Proof.
  assert (well_formed unpublished_database) as Hdb.
  { split_and!; [split; apply NoDup_singleton|apply NoDup_singleton|].
    intros [|i] [|j] ci cj Hi Hj; simplify_eq/=; done. }
  split; [done|].
  destruct (@push_then_transcripts toy_extern unpublished_database
              published_database 7 1 50%Z "QmTranscript" Hdb eq_refl)
    as [_ Hlisted].
  apply (Hlisted 0 (Chat.mk 7 "0xda0" 1 5%Z 5%Z)); reflexivity.
Defined.

(** ** Messages and summaries *)

Section messages.
Implicit Types (tbl : list Message.t).

Lemma read_all_None_length conversation tbl :
  length (Message.read_all conversation None tbl) ≤ length tbl.
Proof.
  rewrite (read_all_None_Permutation conversation tbl). apply length_filter.
Qed.
End messages.

(** X11: the read of [/summary] always fetches the whole conversation: with
    the message count of a summary that [Summary.create] has just made as
    limit, [read_all] returns what it returns without limit, for every
    conversation of the table. *)
Theorem summary_reads_whole_history (conversation summarized : Z) (now : datetime)
    (messages : list Message.t) (summaries : list Summary.t) :
  Message.read_all conversation
    (Some (Summary.message_count
             (Summary.create summarized now messages summaries).1)) messages
  = Message.read_all conversation None messages.
Proof.
  unfold Summary.create. cbn [fst Summary.message_count].
  unfold Message.read_all at 1.
  destruct (decide (Z.of_nat (length messages) = 0%Z)); [done|].
  destruct (decide (Z.of_nat (length messages) < 0)%Z); [done|].
  rewrite Nat2Z.id. apply take_ge.
  apply (read_all_None_length conversation messages).
Qed.

(** X12: a positive limit [n] makes [read_all] return the [n] most recent
    messages of the conversation, or all of them when there are fewer: the
    result and the messages left out make up the conversation, the result
    has [n] messages or the whole conversation, and no message left out is
    more recent than a message returned. *)
Theorem read_all_most_recent (conversation n : Z) (tbl : list Message.t) :
  (0 < n)%Z →
  ∃ omitted,
    Message.read_all conversation (Some n) tbl ++ omitted
    ≡ₚ messages_of conversation tbl
    ∧ length (Message.read_all conversation (Some n) tbl)
      = Z.to_nat n `min` length (messages_of conversation tbl)
    ∧ ∀ m m', m ∈ Message.read_all conversation (Some n) tbl → m' ∈ omitted →
              (Message.timestamp m' ≤ Message.timestamp m)%Z.
Proof.
  intros Hn.
  exists (drop (Z.to_nat n) (Message.read_all conversation None tbl)).
  assert (Message.read_all conversation (Some n) tbl
          = take (Z.to_nat n) (Message.read_all conversation None tbl)) as ->.
  { unfold Message.read_all. destruct (decide (n = 0%Z)); [lia|].
    destruct (decide (n < 0)%Z); [lia|done]. }
  split_and!.
  - rewrite take_drop. apply read_all_None_Permutation.
  - rewrite length_take. by rewrite (read_all_None_Permutation conversation tbl).
  - intros m m' Hm Hm'.
    apply (StronglySorted_app_1_elem_of Message.newer_first
             (take (Z.to_nat n) (Message.read_all conversation None tbl))
             (drop (Z.to_nat n) (Message.read_all conversation None tbl)));
      [|done|done].
    rewrite take_drop. apply read_all_None_sorted.
Qed.

Lemma read_all_most_recent_witness :
  ∃ omitted,
    Message.read_all 1 (Some 1%Z) three_messages ++ omitted
    ≡ₚ messages_of 1 three_messages
    ∧ length (Message.read_all 1 (Some 1%Z) three_messages)
      = Z.to_nat 1 `min` length (messages_of 1 three_messages)
    ∧ ∀ m m', m ∈ Message.read_all 1 (Some 1%Z) three_messages → m' ∈ omitted →
              (Message.timestamp m' ≤ Message.timestamp m)%Z.
Proof. apply (read_all_most_recent 1 1 three_messages). lia. Defined.

Section summaries.
Implicit Types (tbl : list Summary.t).

Lemma summary_next_id_above tbl s :
  s ∈ tbl → (Summary.id s < Summary.next_id tbl)%Z.
Proof.
  unfold Summary.next_id. destruct tbl as [|s0 rest]; [by intros ?%elem_of_nil|].
  assert (∀ x, (x ≤ foldr (λ s acc, Z.max (Summary.id s) acc) x rest)%Z
               ∧ ∀ s', s' ∈ rest →
                   (Summary.id s'
                    ≤ foldr (λ s acc, Z.max (Summary.id s) acc) x rest)%Z)
    as Hmax.
  { intros x. induction rest as [|s1 rest [IH1 IH2]]; simpl.
    - split; [lia|]. by intros s' ?%elem_of_nil.
    - split; [lia|]. intros s' [->|Hin]%elem_of_cons; [lia|].
      specialize (IH2 _ Hin). lia. }
  destruct (Hmax (Summary.id s0)) as [Hfirst Hrest].
  intros [->|Hin]%elem_of_cons; [lia|]. specialize (Hrest _ Hin). lia.
Qed.
End summaries.

(** X13: the summary that [Summary.create] returns is pending, without
    text, with an id greater than every id in the table, and it is the row
    a [mark] with that id changes: the rows that were there stay as they
    are, and the new row keeps its conversation, its message count and its
    creation time. *)
Theorem create_then_mark (conversation : Z) (now later : datetime)
    (messages : list Message.t) (tbl : list Summary.t) (text : string)
    (new_state : SummaryState.t) :
  let summary := (Summary.create conversation now messages tbl).1 in
  Summary.state summary = "pending"
  ∧ Summary.text summary = None
  ∧ (∀ s, s ∈ tbl → (Summary.id s < Summary.id summary)%Z)
  ∧ Summary.mark (Summary.id summary) text new_state later
      (Summary.create conversation now messages tbl).2
    = (Return tt,
       tbl ++ [Summary.mk (Summary.id summary) conversation
                 (Summary.message_count summary) (SummaryState.str new_state)
                 (Some text) now later]).
Proof.
  simpl. split_and!; [done|done|apply summary_next_id_above|].
  unfold Summary.mark. rewrite list_find_app_r.
  - simpl. rewrite decide_True by done. simpl.
    by rewrite insert_app_r_alt, Nat.sub_diag by done.
  - apply list_find_None, Forall_forall. intros s Hs Hid.
    apply summary_next_id_above in Hs. lia.
Qed.

(** ** Every call of complete *)

Section every_call.
Context `{Extern} {B : Type} `{!Http.Backend B}.
Implicit Types (a : Agent.t) (session : Http.Session) (params : Http.Params)
  (slots : gmap Z (Http.Session * Z)) (b : B).

(** Whatever the backend does: the loop touches no entry of another
    conversation, sends at most [remaining] requests, and gives up only
    after [remaining] requests, with one error for each. *)
Lemma complete_loop_any a conversation_id session params :
  ∀ remaining slot errors slots b res slots' b',
    Agent.complete_loop a conversation_id session params remaining slot errors
      slots b = (res, slots', b') →
    (∀ other, other ≠ conversation_id → slots' !! other = slots !! other)
    ∧ ∃ j, j ≤ remaining
        ∧ b' = post_n session (Agent.model_api_url a) params j b
        ∧ match res with
          | Return _ => 1 ≤ j
          | Raise e =>
              j = remaining
              ∧ ∃ errs, e = CompleteFailed (errors ++ errs)
                        ∧ length errs = remaining
          end.
Proof.
  induction remaining as [|remaining IH];
    intros slot errors slots b res slots' b'; simpl.
  - intros [= <- <- <-]. split; [done|]. exists 0. split_and!; [done..|].
    exists []. by rewrite app_nil_r.
  - destruct (Agent.attempt a conversation_id session params slot slots b)
      as [[[res1 slot1] slots1] b1] eqn:Hattempt.
    apply attempt_slot in Hattempt as (-> & -> & Hrefresh & _).
    assert (∀ other, other ≠ conversation_id → slots1 !! other = slots !! other)
      as Hframe.
    { intros other Hother. destruct Hrefresh as [[-> _]| ->]; [done|].
      by rewrite lookup_insert_ne. }
    destruct res1 as [result|e].
    + intros [= <- <- <-]. split; [done|]. exists 1. split_and!; [lia|done|done].
    + intros Hloop. apply IH in Hloop as (Hframe' & j & Hj & -> & Hres).
      split; [intros other Hother; by rewrite Hframe', Hframe|].
      exists (S j). split_and!; [lia|done|].
      destruct res as [result|e']; [lia|].
      destruct Hres as (-> & errs & -> & Hlen). split; [done|].
      exists (e :: errs). split; [by rewrite <-app_assoc|by simpl; rewrite Hlen].
Qed.
End every_call.

(** X14: a call of [complete], whether it returns or raises, leaves the
    slot entries of all other conversations and the configuration of the
    agent as they are, and opens a session only when the conversation has
    no entry. *)
Theorem complete_frame `{Extern} {B : Type} `{!Http.Backend B} (a a' : Agent.t)
    (prompt_text : string) (conversation_id : Z) (w w' : Http.World B)
    (res : Result (string * nat * bool)) :
  Agent.complete a prompt_text conversation_id w = (res, a', w') →
  (∀ other, other ≠ conversation_id →
     Agent.model_conversation_slots a' !! other
     = Agent.model_conversation_slots a !! other)
  ∧ a' = Agent.with_slots (Agent.model_conversation_slots a') a
  ∧ Http.sessions_opened w'
    = match Agent.model_conversation_slots a !! conversation_id with
      | Some _ => Http.sessions_opened w
      | None => S (Http.sessions_opened w)
      end.
Proof.
  unfold Agent.complete, Agent.lookup_slot.
  destruct (Agent.model_conversation_slots a !! conversation_id)
    as [[session slot]|] eqn:Hentry.
  - destruct (decide (Agent.model_engine a = "llamacpp")).
    + destruct (Agent.complete_loop _ _ _ _ _ _ _ _ _) as [[res1 slots1] b1] eqn:Hloop.
      intros [= <- <- <-]. apply complete_loop_any in Hloop as [Hframe _].
      by destruct a.
    + intros [= <- <- <-]. by destruct a.
  - destruct (decide (Agent.model_engine a = "llamacpp")).
    + destruct (Agent.complete_loop _ _ _ _ _ _ _ _ _) as [[res1 slots1] b1] eqn:Hloop.
      intros [= <- <- <-]. apply complete_loop_any in Hloop as [Hframe _].
      by destruct a.
    + intros [= <- <- <-]. by destruct a.
Qed.

Lemma complete_frame_witness :
  Agent.model_conversation_slots
    (@Agent.complete toy_extern _ scripted toy_agent_with_slot "hello" 6
       (Http.mk_world [more] 1)).1.2 !! 5%Z = Some (0, 3%Z).
Proof.
  set (run := @Agent.complete toy_extern _ scripted toy_agent_with_slot "hello" 6
                (Http.mk_world [more] 1)).
  destruct (@complete_frame toy_extern _ scripted toy_agent_with_slot run.1.2
              "hello" 6 (Http.mk_world [more] 1) run.2 run.1.1 eq_refl)
    as [Hframe _].
  by rewrite Hframe.
Defined.



(** X16: [clear_chat] forgets the conversation and nothing else: the next
    call for it starts with a new session and slot id [-1], and the entry
    of every other conversation is kept; after [clear_all_chats] every
    conversation starts so. *)
Theorem clear_chat_forgets {B : Type} (a : Agent.t) (conversation_id other : Z)
    (w : Http.World B) :
  Agent.lookup_slot (Agent.clear_chat conversation_id a) conversation_id w
  = (Http.sessions_opened w, (-1)%Z, S (Http.sessions_opened w))
  ∧ (other ≠ conversation_id →
     Agent.lookup_slot (Agent.clear_chat conversation_id a) other w
     = Agent.lookup_slot a other w)
  ∧ Agent.lookup_slot (Agent.clear_all_chats a) other w
    = (Http.sessions_opened w, (-1)%Z, S (Http.sessions_opened w)).
Proof.
  unfold Agent.lookup_slot, Agent.clear_chat, Agent.clear_all_chats. simpl.
  split_and!.
  - by rewrite lookup_delete_eq.
  - intros Hother. by rewrite lookup_delete_ne.
  - by rewrite lookup_empty.
Qed.

(** ** Every response stream *)

Section every_stream.
Context `{Extern} {B : Type} `{!Http.Backend B}.
Implicit Types (a : Agent.t) (w : Http.World B) (chunks : list (string * bool)).

(** A round below the bound either raises or yields and suspends. *)
Lemma next_round_cases max_tries conversation_id prompt_text tokens
    completion_try a w :
  (completion_try < max_tries)%Z →
  (∃ e a1 w1,
     Agent.next_round max_tries conversation_id prompt_text tokens completion_try
       a w = (Agent.Raised e, Agent.Finished, a1, w1))
  ∨ ∃ completion used stopped a1 w1,
      Agent.next_round max_tries conversation_id prompt_text tokens completion_try
        a w
      = (Agent.Yield completion stopped,
         Agent.AtYield max_tries conversation_id prompt_text completion stopped
           (tokens + used) completion_try, a1, w1).
Proof.
  intros Htry. unfold Agent.next_round. rewrite decide_True by done.
  destruct (Agent.complete a prompt_text conversation_id w)
    as [[[[[completion used] stopped]|e] a1] w1]; [right|left]; eauto 10.
Qed.

Lemma drive_after_stopped date pulls max_tries conversation_id prompt_text
    completion tokens completion_try a w :
  Agent.drive date pulls
    (Agent.AtYield max_tries conversation_id prompt_text completion true tokens
       completion_try) a w
  = ([], match pulls with O => Agent.StillRunning | S _ => Agent.Exhausted end, a, w).
Proof. by destruct pulls. Qed.

Lemma seen_so_far_cons completion chunks ending :
  seen_so_far chunks ending →
  seen_so_far ((completion, false) :: chunks) ending.
Proof.
  intros (Hlast & Hexhausted & Hfailed). split_and!.
  - intros [|i] text Hi; [done|]. simpl in *. f_equal. by eapply Hlast.
  - intros Hending. destruct (Hexhausted Hending) as [text Htext].
    exists text. rewrite last_cons. by rewrite Htext.
  - intros e He. constructor; [done|]. by eapply Hfailed.
Qed.

Lemma drive_from_yield_shape date pulls :
  ∀ max_tries conversation_id prompt_text completion tokens completion_try a w
    chunks ending a' w',
    (completion_try < max_tries)%Z →
    Agent.drive date pulls
      (Agent.AtYield max_tries conversation_id prompt_text completion false
         tokens completion_try) a w = (chunks, ending, a', w') →
    seen_so_far chunks ending.
Proof.
  induction pulls as [|pulls IH];
    intros max_tries conversation_id prompt_text completion tokens
      completion_try a w chunks ending a' w' Htry; simpl.
  - intros [= <- <- <- <-]. split_and!; [by intros []|done|done].
  - destruct (next_round_cases max_tries conversation_id
                (prompt_text +:+ completion) tokens completion_try a w Htry)
      as [(e & a1 & w1 & ->)|(c1 & used & stopped & a1 & w1 & ->)].
    + intros [= <- <- <- <-]. split_and!; [by intros []|done|done].
    + destruct stopped.
      * rewrite drive_after_stopped. intros [= <- <- <- <-]. split_and!.
        -- intros [|i] text Hi; [done|]. by destruct i.
        -- intros _. by exists c1.
        -- intros e He. by destruct pulls.
      * destruct (Agent.drive date pulls _ a1 w1) as [[[rest ending1] a2] w2]
          eqn:Hrest.
        intros [= <- <- <- <-]. apply seen_so_far_cons.
        by eapply IH.
Qed.
End every_stream.

(** X17: whatever the backend does, in what a consumer of [yield_response]
    has seen after any number of pulls only the last chunk can be marked
    stopped; when the stream has failed, no chunk is marked stopped; when it
    is exhausted, its last chunk is marked stopped, unless the number of
    tries is 0 or less, and then it has given no chunk. *)
Theorem stream_stops_once `{Extern} {B : Type} `{!Http.Backend B} (date : string)
    (pulls : nat) (messages : list Message.t) (conversation_id : Z)
    (prompt_type : PromptType.t) (a a' : Agent.t) (w w' : Http.World B)
    (chunks : list (string * bool)) (ending : Agent.Ending) :
  Agent.drive date pulls (Agent.yield_response messages conversation_id prompt_type)
    a w = (chunks, ending, a', w') →
  (∀ i text, chunks !! i = Some (text, true) → S i = length chunks)
  ∧ (∀ e, ending = Agent.Failed e → Forall (λ chunk, chunk.2 = false) chunks)
  ∧ (ending = Agent.Exhausted →
     (∃ text, last chunks = Some (text, true))
     ∨ chunks = [] ∧ (Agent.max_completion_tries a ≤ 0)%Z).
Proof.
  destruct pulls as [|pulls]; simpl.
  { intros [= <- <- <- <-]. split_and!; [by intros []|done|done]. }
  destruct (Agent.build_prompt a messages prompt_type date)
    as [[prompt_text used]|e].
  2:{ intros [= <- <- <- <-]. split_and!; [by intros []|done|done]. }
  destruct (decide (0 < Agent.max_completion_tries a)%Z) as [Htries|Htries].
  - destruct (next_round_cases (Agent.max_completion_tries a) conversation_id
                prompt_text 0 0%Z a w Htries)
      as [(e & a1 & w1 & ->)|(c1 & used1 & stopped & a1 & w1 & ->)].
    + intros [= <- <- <- <-]. split_and!; [by intros []|done|done].
    + destruct stopped.
      * rewrite drive_after_stopped. intros [= <- <- <- <-]. split_and!.
        -- intros [|i] text Hi; [done|]. by destruct i.
        -- intros e He. by destruct pulls.
        -- intros _. left. by exists c1.
      * destruct (Agent.drive date pulls _ a1 w1) as [[[rest ending1] a2] w2]
          eqn:Hrest.
        intros [= <- <- <- <-].
        apply drive_from_yield_shape in Hrest; [|done].
        apply (seen_so_far_cons c1) in Hrest as (Hlast & Hexhausted & Hfailed).
        split_and!; [done|done|]. intros Hending. left. by apply Hexhausted.
  - unfold Agent.next_round. rewrite decide_False by done.
    intros [= <- <- <- <-]. split_and!; [by intros []|done|].
    intros _. right. split; [done|lia].
Qed.

Lemma stream_stops_once_witness :
  ∃ text,
    last (@Agent.drive toy_extern _ scripted "Monday" 10
            (Agent.yield_response three_messages 1 PromptType.summary) toy_agent
            (Http.mk_world [more; more; more; finished; more] 0)).1.1.1
    = Some (text, true).
Proof.
  set (run := @Agent.drive toy_extern _ scripted "Monday" 10
                (Agent.yield_response three_messages 1 PromptType.summary)
                toy_agent (Http.mk_world [more; more; more; finished; more] 0)).
  destruct (@stream_stops_once toy_extern _ scripted "Monday" 10 three_messages 1
              PromptType.summary toy_agent run.1.2
              (Http.mk_world [more; more; more; finished; more] 0) run.2
              run.1.1.1 run.1.1.2) as (_ & _ & Hexhausted);
    [vm_compute; reflexivity|].
  destruct Hexhausted as [Hlast|[_ Htries]]; [vm_compute; reflexivity|done|].
  simpl in Htries. lia.
Defined.

(** ** More on prompts *)

Section strings.
Implicit Types (s t u : string) (c : ascii).

Lemma append_cons c s t : String c s +:+ t = String c (s +:+ t).
Proof. reflexivity. Qed.

Lemma append_assoc s t u : (s +:+ t) +:+ u = s +:+ t +:+ u.
Proof.
  induction s as [|x s IH]; [done|]. rewrite !append_cons. by f_equal.
Qed.

Lemma append_nil_r s : s +:+ "" = s.
Proof.
  induction s as [|x s IH]; [done|]. rewrite append_cons. by f_equal.
Qed.

Lemma lacks_append c s t : lacks c (s +:+ t) ↔ lacks c s ∧ lacks c t.
Proof.
  induction s as [|x s IH]; [simpl; tauto|].
  rewrite append_cons. simpl. rewrite IH. tauto.
Qed.

Lemma replace_newlines_lacks s : lacks "010"%char (replace_newlines s).
Proof.
  induction s as [|x s IH]; simpl; [done|]. split; [|done].
  by case_decide.
Qed.
End strings.

(** X18: the label of a user is the username when that is set and not
    empty, and else the first name, a space and the last name, each of the
    two left out when it is not set; so the label is never empty. *)
Theorem fmt_msg_user_name_not_empty (user : User.t) :
  fmt_msg_user_name user ≠ ""
  ∧ (∀ username, User.username user = Some username → username ≠ "" →
       fmt_msg_user_name user = username)
  ∧ (User.username user = None ∨ User.username user = Some "" →
     fmt_msg_user_name user
     = default "" (User.first_name user) +:+ " "
       +:+ default "" (User.last_name user)).
Proof.
  unfold fmt_msg_user_name, str_or. split_and!.
  - destruct (User.username user) as [username|].
    + case_decide; [|done].
      destruct (User.first_name user) as [[|x first]|],
        (User.last_name user) as [[|y last]|]; done.
    + destruct (User.first_name user) as [[|x first]|],
        (User.last_name user) as [[|y last]|]; done.
  - intros username -> Hname. by rewrite decide_False.
  - intros [->| ->]; simpl;
      destruct (User.first_name user) as [[|x first]|],
        (User.last_name user) as [[|y last]|]; done.
Qed.

Section system_prompt.
Context `{Extern}.

(** What [build_system_prompt] returns, for every schema: the two fields
    formatted with the name and the date, each with its newlines replaced,
    between the system header and the stop sequence. *)
Lemma build_system_prompt_flattened (pm : PromptManager.t)
    (schema : PromptManager.SystemPromptSchema) (date text : string)
    (token_limit : Z) (used_tokens : nat) :
  PromptManager.build_system_prompt pm schema date token_limit
  = Return (text, used_tokens) →
  ∃ role objective,
    str_format (PromptManager.Role schema) (PromptManager.name pm) date = Return role
    ∧ str_format (PromptManager.Objective schema) (PromptManager.name pm) date
      = Return objective
    ∧ text = PromptManager.user_prepend pm +:+ "system"
             +:+ PromptManager.user_append pm
             +:+ (replace_newlines role +:+ replace_newlines objective)
             +:+ PromptManager.stop_sequence pm +:+ PromptManager.line_separator pm
             +:+ PromptManager.log_start pm
    ∧ lacks "010"%char (replace_newlines role +:+ replace_newlines objective)
    ∧ used_tokens = calculate_number_of_tokens text
    ∧ (Z.of_nat used_tokens ≤ token_limit)%Z.
Proof.
  unfold PromptManager.build_system_prompt, PromptManager.render_system_prompt.
  cbn [PromptManager.format_values].
  destruct (str_format (PromptManager.Role schema) _ _) as [role|e]; [|done].
  destruct (str_format (PromptManager.Objective schema) _ _) as [objective|e];
    [|done].
  change ("" +:+ replace_newlines role) with (replace_newlines role).
  case_decide as Hlimit; [done|]. intros [= <- <-].
  exists role, objective. split_and!; [done..| |done|lia].
  apply lacks_append. split; apply replace_newlines_lacks.
Qed.
End system_prompt.

(** X19: a system prompt that [summary_system_prompt] or
    [proposal_system_prompt] returns is the system header, the Role and the
    Objective of its own template, each formatted with the name and the date
    and with its newlines replaced by spaces, the stop sequence, the line
    separator and the start of the log.  So the text between header and stop
    sequence holds no newline, whatever the templates and the name hold; the
    token count returned is that of the prompt and is within the limit. *)
Theorem system_prompt_flattened `{Extern} (pm : PromptManager.t)
    (prompt_type : PromptType.t) (date text : string) (token_limit : Z)
    (used_tokens : nat) :
  match prompt_type with
  | PromptType.summary => PromptManager.summary_system_prompt pm date token_limit
  | PromptType.proposal => PromptManager.proposal_system_prompt pm date token_limit
  end = Return (text, used_tokens) →
  ∃ role objective,
    str_format
      (PromptManager.Role
         match prompt_type with
         | PromptType.summary => PromptManager.summary_system_prompt_schema pm
         | PromptType.proposal => PromptManager.proposal_system_prompt_schema pm
         end) (PromptManager.name pm) date = Return role
    ∧ str_format
        (PromptManager.Objective
           match prompt_type with
           | PromptType.summary => PromptManager.summary_system_prompt_schema pm
           | PromptType.proposal => PromptManager.proposal_system_prompt_schema pm
           end) (PromptManager.name pm) date = Return objective
    ∧ text = PromptManager.user_prepend pm +:+ "system"
             +:+ PromptManager.user_append pm
             +:+ (replace_newlines role +:+ replace_newlines objective)
             +:+ PromptManager.stop_sequence pm +:+ PromptManager.line_separator pm
             +:+ PromptManager.log_start pm
    ∧ lacks "010"%char (replace_newlines role +:+ replace_newlines objective)
    ∧ used_tokens = calculate_number_of_tokens text
    ∧ (Z.of_nat used_tokens ≤ token_limit)%Z.
Proof.
  destruct prompt_type;
    unfold PromptManager.summary_system_prompt,
      PromptManager.proposal_system_prompt;
    apply build_system_prompt_flattened.
Qed.

(** The theorem at the summary prompt of the scribe persona, with a limit
    of 16 tokens. *)
Lemma system_prompt_flattened_witness :
  @PromptManager.summary_system_prompt toy_extern toy_prompt_manager "Monday" 16
  = Return ("<system> You are a scribe. Summarize the chat.</s> ", 8)
  ∧ ∃ role objective,
      @str_format toy_extern
        (PromptManager.Role (PromptManager.summary_system_prompt_schema toy_prompt_manager))
        (PromptManager.name toy_prompt_manager) "Monday" = Return role
      ∧ @str_format toy_extern
          (PromptManager.Objective
             (PromptManager.summary_system_prompt_schema toy_prompt_manager))
          (PromptManager.name toy_prompt_manager) "Monday" = Return objective
      ∧ "<system> You are a scribe. Summarize the chat.</s> "
        = PromptManager.user_prepend toy_prompt_manager +:+ "system"
          +:+ PromptManager.user_append toy_prompt_manager
          +:+ (replace_newlines role +:+ replace_newlines objective)
          +:+ PromptManager.stop_sequence toy_prompt_manager
          +:+ PromptManager.line_separator toy_prompt_manager
          +:+ PromptManager.log_start toy_prompt_manager
      ∧ lacks "010"%char (replace_newlines role +:+ replace_newlines objective)
      ∧ 8 = @calculate_number_of_tokens toy_extern
              "<system> You are a scribe. Summarize the chat.</s> "
      ∧ (Z.of_nat 8 ≤ 16)%Z.
Proof.
  split; [reflexivity|].
  apply (@system_prompt_flattened toy_extern toy_prompt_manager PromptType.summary
           "Monday" _ 16%Z 8).
  reflexivity.
Defined.

Section whole_history.
Context `{Extern}.
Implicit Types (pm : PromptManager.t) (messages : list Message.t).

Lemma join_reversed_cons line lines :
  Agent.join_reversed (line :: lines) = Agent.join_reversed lines +:+ line.
Proof. unfold Agent.join_reversed. by rewrite reverse_cons, foldl_app. Qed.

End whole_history.



(** X21: a prompt lists the messages in the order of the conversation: when
    the most recent message fits beside the system prompt and the response
    cue, its line stands last in the prompt, right before the response cue,
    after the system prompt and the lines of the older messages that are
    included. *)
Theorem build_prompt_newest_last `{Extern} (a : Agent.t) (newest : Message.t)
    (older : list Message.t) (prompt_type : PromptType.t)
    (date system_prompt : string) :
  PromptManager.render_system_prompt (Agent.prompt_manager a)
    (schema_of (Agent.prompt_manager a) prompt_type) date = Return system_prompt →
  (Z.of_nat (calculate_number_of_tokens system_prompt
             + calculate_number_of_tokens (response_cue (Agent.prompt_manager a))
             + line_tokens (Agent.prompt_manager a) newest)
   ≤ Agent.max_prompt_tokens a)%Z →
  ∃ n used_tokens,
    Agent.build_prompt a (newest :: older) prompt_type date
    = Return (system_prompt
              +:+ Agent.join_reversed
                    (PromptManager.chat_message (Agent.prompt_manager a)
                       <$> take n older)
              +:+ PromptManager.chat_message (Agent.prompt_manager a) newest
              +:+ response_cue (Agent.prompt_manager a),
              used_tokens).
Proof.
  intros Hrender Hfit. rewrite (build_prompt_cases _ _ _ _ _ Hrender). simpl.
  rewrite decide_False by lia. rewrite decide_False by lia.
  fold (line_tokens (Agent.prompt_manager a) newest).
  rewrite decide_False by lia.
  destruct (Agent.fill_chat_log _ _ older _ _) as [used lines] eqn:Hfill.
  apply fill_chat_log_spec in Hfill as (n & _ & -> & _ & _).
  exists n, used. do 2 f_equal. simpl.
  change (PromptManager.chat_message (Agent.prompt_manager a) newest
          :: (PromptManager.chat_message (Agent.prompt_manager a) <$> take n older))
    with (PromptManager.chat_message (Agent.prompt_manager a)
            <$> newest :: take n older).
  rewrite fmap_cons, join_reversed_cons. by rewrite append_assoc.
Qed.

Lemma build_prompt_newest_last_witness :
  ∃ n used_tokens,
    @Agent.build_prompt toy_extern toy_agent (reverse three_messages)
      PromptType.summary "Monday"
    = Return ("<system> You are a scribe. Summarize the chat.</s> "
              +:+ Agent.join_reversed
                    (PromptManager.chat_message toy_prompt_manager
                       <$> take n [Message.mk 12 1 bob (Some alice) "yes" 110%Z;
                                   Message.mk 11 1 alice None "shall we vote" 100%Z])
              +:+ PromptManager.chat_message toy_prompt_manager
                    (Message.mk 13 2 alice None "other topic" 120%Z)
              +:+ response_cue toy_prompt_manager,
              used_tokens).
Proof.
  apply (@build_prompt_newest_last toy_extern toy_agent
           (Message.mk 13 2 alice None "other topic" 120%Z)
           [Message.mk 12 1 bob (Some alice) "yes" 110%Z;
            Message.mk 11 1 alice None "shall we vote" 100%Z]
           PromptType.summary "Monday"
           "<system> You are a scribe. Summarize the chat.</s> ");
    [reflexivity|vm_compute; discriminate].
Defined.

(** ** The agenda of a new conversation *)

Section agenda.
Implicit Types (text current : string).

Lemma split_space_lacks text :
  ∀ current, lacks " "%char current →
             Forall (lacks " "%char) (split_space text current).
Proof.
  induction text as [|c text IH]; intros current Hcurrent; simpl.
  - by constructor.
  - case_decide.
    + constructor; [done|]. by apply IH.
    + apply IH. apply lacks_append. by split.
Qed.

Lemma split_space_not_nil text : ∀ current, split_space text current ≠ [].
Proof.
  induction text as [|c text IH]; intros current; simpl; [done|].
  case_decide; [done|apply IH].
Qed.

Lemma split_space_single text :
  ∀ current, tail (split_space text current) = [] ↔ lacks " "%char text.
Proof.
  induction text as [|c text IH]; intros current; simpl; [done|].
  case_decide as Hc.
  - split; [|by intros [? _]].
    simpl. intros Hnil. by apply split_space_not_nil in Hnil.
  - rewrite IH. tauto.
Qed.

(** Joining the pieces with single spaces gives the text back. *)
Lemma split_space_concat text :
  ∀ current, String.concat " " (split_space text current) = current +:+ text.
Proof.
  induction text as [|c text IH]; intros current; simpl.
  - by rewrite append_nil_r.
  - case_decide as Hc.
    + subst c. specialize (IH "").
      pose proof (split_space_not_nil text "") as Hpieces.
      destruct (split_space text "") as [|piece pieces]; [done|].
      cbn [String.concat]. cbn [String.concat] in IH. by rewrite IH.
    + rewrite IH. by rewrite append_assoc.
Qed.

Lemma split_space_append text rest :
  ∀ current, lacks " "%char text →
             split_space (text +:+ rest) current
             = split_space rest (current +:+ text).
Proof.
  induction text as [|c text IH]; intros current Hlacks.
  - by rewrite append_nil_r.
  - destruct Hlacks as [Hc Hlacks]. rewrite append_cons. simpl.
    rewrite decide_False by done. rewrite IH by done.
    by rewrite append_assoc.
Qed.
End agenda.

(** X22: [/new] asks for an agenda, and changes nothing, exactly when its
    text holds no space.  Otherwise the text is the command and one or more
    pieces without space, all joined by single spaces, and the agenda is the
    pieces after the command that are not empty, joined by single spaces; a
    command followed by one space and nothing else gives the empty agenda,
    and a conversation is created with it. *)
Theorem new_command_agenda (text : string) :
  (Handlers.parse_agenda text = None ↔ lacks " "%char text)
  ∧ (∀ agenda, Handlers.parse_agenda text = Some agenda →
       ∃ command words,
         text = String.concat " " (command :: words)
         ∧ Forall (lacks " "%char) (command :: words)
         ∧ words ≠ []
         ∧ agenda = String.concat " " (filter (λ word, word ≠ "") words))
  ∧ (lacks " "%char text → Handlers.parse_agenda (text +:+ " ") = Some "")
  ∧ (∀ chat now db, lacks " "%char text →
       Handlers.new_command_handler chat text now db = (Handlers.AskForAgenda, db))
  ∧ (∀ chat now db, lacks " "%char text →
       is_Some (Chat.read chat (Bot.chats db)) →
       Conversation.active chat (Bot.conversations db) = None →
       ∃ c, (Handlers.new_command_handler chat (text +:+ " ") now db).1
            = Handlers.Started c
            ∧ Conversation.agenda c = Some "").
Proof.
  assert (Handlers.parse_agenda text = None ↔ lacks " "%char text) as Hnone.
  { unfold Handlers.parse_agenda. rewrite <-(split_space_single text "").
    destruct (tail (split_space text "")) as [|word words]; simpl; [done|].
    by split. }
  assert (lacks " "%char text → Handlers.parse_agenda (text +:+ " ") = Some "")
    as Hempty.
  { intros Hlacks. unfold Handlers.parse_agenda. by rewrite split_space_append. }
  split; [done|]. split; [|split; [done|split]].
  2:{ intros chat now db Hlacks. unfold Handlers.new_command_handler.
      by rewrite (proj2 Hnone Hlacks). }
  2:{ intros chat now db Hlacks [chat_row Hchat] Hactive.
      unfold Handlers.new_command_handler.
      rewrite (Hempty Hlacks), Hchat. unfold Conversation.create.
      rewrite Hactive. simpl. by eexists. }
  unfold Handlers.parse_agenda. intros agenda.
  pose proof (split_space_concat text "") as Hjoin.
  pose proof (split_space_lacks text "" I) as Hpieces.
  destruct (split_space text "") as [|command words] eqn:Hsplit.
  { by apply split_space_not_nil in Hsplit. }
  cbn [tail]. destruct (decide (length words = 0)) as [|Hwords]; [done|].
  intros [= <-]. exists command, words. split_and!; [done|done| |done].
  intros ->. by apply Hwords.
Qed.
